(** * Wan Scraps: a shallow embedding of [wan_scrapes/main.py]

    The program fetches a page ([fetch_website_content]), extracts a record of
    metadata from the parsed document ([smart_scrape] and its helpers), and
    formats the record for a Discord embed ([send_discord_embed]).

    Python values are modelled as follows.
    - [str] is a list of Unicode code points, so that [len], slicing and
      [strip] count what Python counts.
    - A parsed document (the [BeautifulSoup] object) is a tree of [node]s: tags
      with a name, attributes and contents, and strings with their bs4 class.
    - A [dict] whose order is observable is an association list; a [set] is a
      [gset].
    - A call that can raise returns [option] ([None]: the exception leaves the
      function).
    - What the program imports and does not define (the HTML parser,
      [str.lower], [json.loads], [urllib.parse]) is gathered in the class
      [Libs]; every definition and theorem is stated for an arbitrary
      instance, and [example_libs] is the instance used at concrete
      inputs. *)

From Stdlib Require Import ZArith NArith String Ascii List Lia DecimalString Floats.
From stdpp Require Import base option list gmap sets.

Set Warnings "-register-all".

(** ** Python strings *)

Module Py.

(** A character is a Unicode code point. *)
Definition char := N.
Definition str := list char.

(** A string literal of the source (ASCII only). *)
Definition lit (s : string) : str :=
  map N_of_ascii (list_ascii_of_string s).
Arguments lit s%_string.

(** [str.isspace] on one character: the code points Python treats as white
    space. *)
Definition isspace (c : char) : bool :=
  ((9 <=? c) && (c <=? 13) || (28 <=? c) && (c <=? 32)
   || (c =? 133) || (c =? 160) || (c =? 5760)
   || (8192 <=? c) && (c <=? 8202)
   || (c =? 8232) || (c =? 8233) || (c =? 8239) || (c =? 8287)
   || (c =? 12288))%N.

Fixpoint lstrip (s : str) : str :=
  match s with
  | c :: s' => if isspace c then lstrip s' else s
  | [] => []
  end.

Definition rstrip (s : str) : str := reverse (lstrip (reverse s)).

(** [s.strip()] *)
Definition strip (s : str) : str := rstrip (lstrip s).

(** [s.startswith(p)] *)
Fixpoint startswith (p s : str) : bool :=
  match p, s with
  | [], _ => true
  | a :: p', b :: s' => if decide (a = b) then startswith p' s' else false
  | _ :: _, [] => false
  end.

(** [p in s] for strings: [p] occurs in [s] as a contiguous run. *)
Fixpoint contains (p s : str) : bool :=
  startswith p s || match s with [] => false | _ :: s' => contains p s' end.

(** [s.split(sep)] for a non-empty [sep]: cut at each occurrence, left to
    right, occurrences not overlapping.  [skip] counts the characters of the
    occurrence being passed over, [cur] is the piece being read, reversed. *)
Fixpoint split_go (sep s : str) (skip : nat) (cur : str) : list str :=
  match s with
  | [] => [reverse cur]
  | c :: s' =>
      match skip with
      | S k => split_go sep s' k cur
      | O =>
          if startswith sep s
          then reverse cur :: split_go sep s' (length sep - 1) []
          else split_go sep s' O (c :: cur)
      end
  end.

Definition split (sep s : str) : list str := split_go sep s 0 [].

(** [l[-1]] of a non-empty list ([split] never returns an empty one). *)
Definition last_item (l : list str) : str := List.last l [].

(** [sep.join(l)] *)
Fixpoint join (sep : str) (l : list str) : str :=
  match l with
  | [] => []
  | [x] => x
  | x :: l' => x ++ sep ++ join sep l'
  end.

(** [str(n)] for an integer. *)
Definition str_of_Z (z : Z) : str :=
  lit (NilZero.string_of_int (Z.to_int z)).

(** Truth value of a string: non-empty. *)
Definition truthy (s : str) : bool :=
  match s with [] => false | _ => true end.

End Py.
Import Py.

(** ** The parsed document (bs4) *)

Module Bs4.

(** The classes of strings a parsed document holds.  [get_text] reads only
    [NavigableString] and [CData]; comments, declarations and the contents of
    [script], [style] and [template] have classes of their own. *)
Inductive string_class :=
| NavigableString | CData | Comment | Declaration | Doctype
| ProcessingInstruction | Script | Stylesheet | TemplateString.

(** A page element: a tag with its name, attribute dictionary and contents,
    or a string.  Attribute values are kept as written in the markup; the
    parser's split of a multi-valued attribute ([rel]) is [tokens]. *)
Inductive node :=
| Tag (name : str) (attrs : list (str * str)) (contents : list node)
| Str (cls : string_class) (text : str).

(** The [BeautifulSoup] object: the top-level contents of the document. *)
Definition soup := list node.

(** [element.descendants]: every element below, in document order. *)
Fixpoint descendants (n : node) : list node :=
  match n with
  | Tag _ _ cs => flat_map (fun c => c :: descendants c) cs
  | Str _ _ => []
  end.

Definition soup_descendants (s : soup) : list node :=
  flat_map (fun c => c :: descendants c) s.

Definition is_tag (name : str) (n : node) : bool :=
  match n with
  | Tag nm _ _ => bool_decide (nm = name)
  | Str _ _ => false
  end.

(** [dict.get] on an association list. *)
Fixpoint assoc (key : str) (d : list (str * str)) : option str :=
  match d with
  | [] => None
  | (k, v) :: d' => if decide (k = key) then Some v else assoc key d'
  end.

(** [tag.get(key)]: the attribute's value, [None] when the tag has none. *)
Definition get (n : node) (key : str) : option str :=
  match n with
  | Tag _ attrs _ => assoc key attrs
  | Str _ _ => None
  end.

(** [tag.get(key, default)] *)
Definition get_default (n : node) (key dflt : str) : str :=
  default dflt (get n key).

(** The values of a multi-valued attribute: the maximal runs of characters
    that are not white space. *)
Fixpoint tokens_go (s cur : str) : list str :=
  match s with
  | [] => if truthy cur then [reverse cur] else []
  | c :: s' =>
      if isspace c
      then (if truthy cur then reverse cur :: tokens_go s' [] else tokens_go s' [])
      else tokens_go s' (c :: cur)
  end.

Definition tokens (s : str) : list str := tokens_go s [].

(** [find_all(name, ...)]: the tags called [name] that satisfy [p], in
    document order; [find] is the first of them. *)
Definition find_all (name : str) (p : node -> bool) (s : soup) : list node :=
  filter (fun n => is_tag name n && p n) (soup_descendants s).

Definition find (name : str) (p : node -> bool) (s : soup) : option node :=
  head (find_all name p s).

(** No attribute filter. *)
Definition any_tag (n : node) : bool := true.

(** [attrs={key: value}] on a single-valued attribute: the value as a whole
    is [value]. *)
Definition attr_is (key value : str) (n : node) : bool :=
  bool_decide (get n key = Some value).

(** [key=True]: the tag has the attribute. *)
Definition has_attr (key : str) (n : node) : bool :=
  match get n key with Some _ => true | None => false end.

(** A filter [f] on a multi-valued attribute: some value satisfies it, or the
    values joined by one space do; [f] sees [None] when the attribute is
    missing. *)
Definition multi_matches (f : option str -> bool) (key : str) (n : node) : bool :=
  match get n key with
  | None => f None
  | Some raw =>
      let vs := tokens raw in
      existsb (fun v => f (Some v)) vs || f (Some (join (lit " ") vs))
  end.

(** A string filter on a multi-valued attribute. *)
Definition multi_is (value : str) : str -> node -> bool :=
  multi_matches (fun o =>
    match o with
    | Some v => bool_decide (v = value)
    | None => negb (truthy value)
    end).

(** [element.string]: a string is its own; a tag has one when it has exactly
    one child, and that child has one. *)
Fixpoint string_of (n : node) : option str :=
  match n with
  | Str _ s => Some s
  | Tag _ _ [c] => string_of c
  | Tag _ _ _ => None
  end.

Definition interesting (k : string_class) : bool :=
  match k with NavigableString | CData => true | _ => false end.

(** The strings [get_text(strip=True)] yields: each interesting string below
    the tag, stripped, the empty ones dropped. *)
Definition stripped_string (d : node) : option str :=
  match d with
  | Str k s =>
      if interesting k
      then (let s' := strip s in if truthy s' then Some s' else None)
      else None
  | Tag _ _ _ => None
  end.

(** [tag.get_text(strip=True)] *)
Definition get_text_strip (n : node) : str :=
  concat (omap stripped_string (descendants n)).

(** [tag.get_text()]: the interesting strings below the tag, as they are. *)
Definition get_text (n : node) : str :=
  concat (omap (fun d => match d with
                         | Str k s => if interesting k then Some s else None
                         | Tag _ _ _ => None
                         end) (descendants n)).

End Bs4.
Import Bs4.

(** ** Values and libraries *)

(** What [json.loads] returns. *)
Inductive json :=
| JNull
| JBool (b : bool)
| JInt (z : Z)
| JFloat (f : float)
| JStr (s : str)
| JList (l : list json)
| JDict (d : list (str * json)).

(** The library functions the program calls.  [None] stands for a raised
    exception: [json.loads] raises on text that is not JSON, [urljoin] and
    [urlparse] raise [ValueError] on a malformed bracketed host, [json.dumps]
    raises on a value it cannot serialise.  The parser raises too: bs4 turns
    the [AssertionError] of [html.parser] on markup such as [<![foo bar]>]
    into [ParserRejectedMarkup]; [rejects_markup] says on which texts, and
    [BeautifulSoup] is the document built from the others. *)
Class Libs := {
  rejects_markup : str -> bool;         (* BeautifulSoup(html, 'html.parser') raises *)
  BeautifulSoup : str -> soup;          (* the document it returns when it does not *)
  lower : str -> str;                   (* str.lower() *)
  json_loads : str -> option json;      (* json.loads(s) *)
  urljoin : str -> str -> option str;   (* urllib.parse.urljoin(base, url) *)
  urlparse_netloc : str -> option str;  (* urllib.parse.urlparse(url).netloc *)
  urlparse_scheme : str -> option str;  (* urllib.parse.urlparse(url).scheme *)
  json_dumps : json -> option str;      (* json.dumps(item, indent=2) *)
  py_str : json -> str;                 (* str(item) *)
  format_2f : float -> str;             (* f"{x:.2f}" *)
}.

(** Response headers ([requests]' case-insensitive dictionary). *)
Definition headers := list (str * str).

(** The record [smart_scrape] returns and [send_discord_embed] reads. *)
Record page_record := {
  title : str;
  meta_description : str;
  meta_keywords : str;
  headlines : list str;
  subheadlines : list str;
  summaries : list str;
  charset : str;
  lang : str;
  json_ld : list json;
  open_graph : list (str * str);
  favicons : list str;
  main_images : list str;
  canonical_url : str;
  robots_meta : str;
  internal_links_count : nat;
  external_links_count : nat;
  internal_links_sample : list str;
  external_links_sample : list str;
  last_modified : str;
  content_length : str;
  server : str;
  load_time : float;
}.

(** [l or d] on lists: [l] unless it is empty. *)
Definition or_list {A} (l d : list A) : list A :=
  match l with [] => d | _ => l end.

(** [s or d] where [s] is a string or [None]. *)
Definition or_str (s : option str) (d : str) : str :=
  match s with
  | Some v => if truthy v then v else d
  | None => d
  end.

(** [d[k] = v] on a dictionary kept in insertion order. *)
Fixpoint dict_set (k v : str) (d : list (str * str)) : list (str * str) :=
  match d with
  | [] => [(k, v)]
  | (k', v') :: d' =>
      if decide (k' = k) then (k, v) :: d' else (k', v') :: dict_set k v d'
  end.

(** ** The formatter's truncation *)

Definition ellipsis : str := [8230%N].

Definition safe_truncate_to (text : str) (max_len : nat) : str :=
  if Nat.ltb max_len (length text) then take max_len text ++ ellipsis else text.

(** [safe_truncate(text)], with the default [max_len=700]. *)
Definition safe_truncate (text : str) : str := safe_truncate_to text 700.

(** ** The extractor *)

Section Extractor.
Context `{Libs}.

Fixpoint extract_json_ld_loop (scripts : list node) (data : list json) : list json :=
  match scripts with
  | [] => data
  | script :: rest =>
      match string_of script with
      | Some s =>
          match json_loads s with
          | Some d => extract_json_ld_loop rest (data ++ [d])
          | None => extract_json_ld_loop rest data
          end
      | None => extract_json_ld_loop rest data
      end
  end.

Definition extract_json_ld (sp : soup) : list json :=
  let data :=
    extract_json_ld_loop
      (find_all (lit "script") (attr_is (lit "type") (lit "application/ld+json")) sp)
      [] in
  or_list data [JStr (lit "Not found")].

Fixpoint extract_open_graph_loop (tags : list node) (og : list (str * str))
  : list (str * str) :=
  match tags with
  | [] => og
  | tag :: rest =>
      let prop :=
        or_str (get tag (lit "property")) (or_str (get tag (lit "name")) []) in
      if startswith (lit "og:") prop || startswith (lit "twitter:") prop
      then extract_open_graph_loop rest
             (dict_set prop (get_default tag (lit "content") (lit "Not found")) og)
      else extract_open_graph_loop rest og
  end.

Definition extract_open_graph (sp : soup) : list (str * str) :=
  let og := extract_open_graph_loop (find_all (lit "meta") any_tag sp) [] in
  or_list og [(lit "None", lit "Not found")].

(** [lambda x: x and "icon" in x.lower()] *)
Definition icon_rel (x : option str) : bool :=
  match x with
  | Some v => truthy v && contains (lit "icon") (lower v)
  | None => false
  end.

Fixpoint find_favicons_loop (base_url : str) (links : list node) (icons : list str)
  : option (list str) :=
  match links with
  | [] => Some icons
  | link :: rest =>
      match get link (lit "href") with
      | Some href =>
          if truthy href
          then u ← urljoin base_url href;
               find_favicons_loop base_url rest (icons ++ [u])
          else find_favicons_loop base_url rest icons
      | None => find_favicons_loop base_url rest icons
      end
  end.

Definition find_favicons (sp : soup) (base_url : str) : option (list str) :=
  icons ← find_favicons_loop base_url
             (find_all (lit "link") (multi_matches icon_rel (lit "rel")) sp) [];
  Some (or_list icons [lit "Not found"]).

Fixpoint get_main_images_loop (base_url : str) (max_images : nat)
    (imgs : list node) (images : list str) : option (list str) :=
  match imgs with
  | [] => Some images
  | img :: rest =>
      images' ← match get img (lit "src") with
                 | Some src =>
                     if truthy src
                     then u ← urljoin base_url src; Some (images ++ [u])
                     else Some images
                 | None => Some images
                 end;
      if Nat.leb max_images (length images')
      then Some images'
      else get_main_images_loop base_url max_images rest images'
  end.

Definition get_main_images (sp : soup) (base_url : str) : option (list str) :=
  images ← get_main_images_loop base_url 5
              (find_all (lit "img") (has_attr (lit "src")) sp) [];
  Some (or_list images [lit "Not found"]).

Definition get_canonical_url (sp : soup) (base_url : str) : option str :=
  match find (lit "link") (multi_is (lit "canonical") (lit "rel")) sp with
  | Some link =>
      match get link (lit "href") with
      | Some href =>
          if truthy href then urljoin base_url href else Some (lit "Not found")
      | None => Some (lit "Not found")
      end
  | None => Some (lit "Not found")
  end.

Definition get_robots_meta (sp : soup) : str :=
  match find (lit "meta") (attr_is (lit "name") (lit "robots")) sp with
  | Some tag =>
      match get tag (lit "content") with
      | Some content =>
          if truthy content then strip content else lit "Not found"
      | None => lit "Not found"
      end
  | None => lit "Not found"
  end.

(** The filter of [count_links] on a stripped href: bare fragments and
    script pseudo-links are passed over. *)
Definition skipped_href (href : str) : bool :=
  startswith (lit "#") href || startswith (lit "javascript:") (lower href).

Fixpoint count_links_loop (base_url base_domain : str) (anchors : list node)
    (internal external : gset str) : option (gset str * gset str) :=
  match anchors with
  | [] => Some (internal, external)
  | a :: rest =>
      raw ← get a (lit "href");
      let href := strip raw in
      if skipped_href href
      then count_links_loop base_url base_domain rest internal external
      else
        full_url ← urljoin base_url href;
        netloc ← urlparse_netloc full_url;
        let domain := lower netloc in
        if decide (domain = base_domain)
        then count_links_loop base_url base_domain rest ({[full_url]} ∪ internal) external
        else count_links_loop base_url base_domain rest internal ({[full_url]} ∪ external)
  end.

Definition count_links (sp : soup) (base_url : str) : option (list str * list str) :=
  base_netloc ← urlparse_netloc base_url;
  let base_domain := lower base_netloc in
  '(internal, external) ←
    count_links_loop base_url base_domain
      (find_all (lit "a") (has_attr (lit "href")) sp) ∅ ∅;
  Some (elements internal, elements external).

(** [response_headers.get(key, default)]: the lookup ignores the case of the
    header's name. *)
Fixpoint headers_get (hs : headers) (key dflt : str) : str :=
  match hs with
  | [] => dflt
  | (k, v) :: hs' =>
      if decide (lower k = lower key) then v else headers_get hs' key dflt
  end.

(** [soup.title.string.strip() if soup.title and soup.title.string else ...] *)
Definition scrape_title (sp : soup) : str :=
  match find (lit "title") any_tag sp with
  | Some t =>
      match string_of t with
      | Some s => if truthy s then strip s else lit "Title not found"
      | None => lit "Title not found"
      end
  | None => lit "Title not found"
  end.

(** [meta.get("content", "").strip() if meta else sentinel] for the [meta]
    tag called [name]. *)
Definition scrape_meta (sp : soup) (name sentinel : str) : str :=
  match find (lit "meta") (attr_is (lit "name") name) sp with
  | Some tag => strip (get_default tag (lit "content") [])
  | None => sentinel
  end.

(** [[h.get_text(strip=True) for h in soup.find_all(name) if h.get_text(strip=True)]] *)
Definition heading_texts (sp : soup) (name : str) : list str :=
  filter (fun t => truthy t = true) (map get_text_strip (find_all name any_tag sp)).

(** The comprehension [paragraphs] of [smart_scrape]. *)
Definition paragraphs (sp : soup) : list str :=
  filter (fun t => truthy t && Nat.ltb 50 (length t) = true)
         (map get_text_strip (find_all (lit "p") any_tag sp)).

(** The [charset] variable of [smart_scrape] before its default; the outer
    [None] is an exception. *)
Definition scrape_charset (sp : soup) : option (option str) :=
  match find (lit "meta") (has_attr (lit "charset")) sp with
  | Some charset_tag => Some (get charset_tag (lit "charset"))
  | None =>
      match find (lit "meta") (attr_is (lit "http-equiv") (lit "Content-Type")) sp with
      | Some content_type =>
          if contains (lit "charset=") (get_default content_type (lit "content") [])
          then content ← get content_type (lit "content");
               Some (Some (last_item (Py.split (lit "charset=") content)))
          else Some None
      | None => Some None
      end
  end.

(** [soup.html.attrs.get("lang") if soup.html else None] *)
Definition scrape_lang (sp : soup) : option str :=
  match find (lit "html") any_tag sp with
  | Some html_tag => get html_tag (lit "lang")
  | None => None
  end.

Definition smart_scrape (html base_url : str) (response_headers : headers)
    (load_time : float) : option page_record :=
  if rejects_markup html then None else
  let sp := BeautifulSoup html in
  let title := scrape_title sp in
  let meta_desc := scrape_meta sp (lit "description") (lit "Meta description not found") in
  let meta_keywords := scrape_meta sp (lit "keywords") (lit "Meta keywords not found") in
  let headlines := or_list (take 5 (heading_texts sp (lit "h1"))) [lit "No H1 tags found"] in
  let subheadlines := or_list (take 5 (heading_texts sp (lit "h2"))) [lit "No H2 tags found"] in
  let summaries := or_list (take 5 (paragraphs sp)) [lit "No meaningful paragraphs found"] in
  charset ← scrape_charset sp;
  let lang := scrape_lang sp in
  let json_ld := extract_json_ld sp in
  let og_tags := extract_open_graph sp in
  favicons ← find_favicons sp base_url;
  main_images ← get_main_images sp base_url;
  canonical_url ← get_canonical_url sp base_url;
  let robots_meta := get_robots_meta sp in
  '(internal_links, external_links) ← count_links sp base_url;
  let last_modified := headers_get response_headers (lit "Last-Modified") (lit "Not found") in
  let content_length := headers_get response_headers (lit "Content-Length") (lit "Unknown") in
  let server := headers_get response_headers (lit "Server") (lit "Unknown") in
  Some {|
    title := title;
    meta_description := meta_desc;
    meta_keywords := meta_keywords;
    headlines := headlines;
    subheadlines := subheadlines;
    summaries := summaries;
    charset := or_str charset (lit "Unknown");
    lang := or_str lang (lit "Unknown");
    json_ld := json_ld;
    open_graph := og_tags;
    favicons := favicons;
    main_images := main_images;
    canonical_url := canonical_url;
    robots_meta := robots_meta;
    internal_links_count := length internal_links;
    external_links_count := length external_links;
    internal_links_sample := or_list (take 5 internal_links) [lit "None"];
    external_links_sample := or_list (take 5 external_links) [lit "None"];
    last_modified := last_modified;
    content_length := content_length;
    server := server;
    load_time := load_time;
  |}.

End Extractor.

(** ** The fetcher *)

(** What [session.get] hands to the [try] statement of
    [fetch_website_content]: a [requests] response, or a
    [requests.RequestException] with its message and, when the exception
    carries one, the response.  An exception of another class is not of
    these: see [get_call]. *)
Record response := {
  text : str;
  status_code : Z;
  reason : str;
  resp_url : str;
  resp_headers : headers;
}.

Record RequestException := {
  description : str;
  exc_response : option response;
}.

Inductive get_result :=
| Responds (r : response)
| Raises (e : RequestException).

(** [response.raise_for_status()]: an [HTTPError] carrying the response for a
    status from 400 to 599, nothing otherwise. *)
Definition raise_for_status (r : response) : option RequestException :=
  let code := status_code r in
  if (400 <=? code)%Z && (code <? 500)%Z then
    Some {| description := str_of_Z code ++ lit " Client Error: " ++ reason r
                           ++ lit " for url: " ++ resp_url r;
            exc_response := Some r |}
  else if (500 <=? code)%Z && (code <? 600)%Z then
    Some {| description := str_of_Z code ++ lit " Server Error: " ++ reason r
                           ++ lit " for url: " ++ resp_url r;
            exc_response := Some r |}
  else None.

(** The second component of the fetcher's result: a status code, or the
    string ['N/A']. *)
Inductive status :=
| Code (n : Z)
| NA.

(** The lines the fetcher logs. *)
Inductive log_entry :=
| LogFetched (url : str) (code : Z) (load_time : float)
| LogFailed (url : str) (s : status) (error : str).

(** [getattr(e.response, 'status_code', 'N/A')] *)
Definition exc_status (e : RequestException) : status :=
  match exc_response e with
  | Some r => Code (status_code r)
  | None => NA
  end.

Definition fetch_result : Type := option str * status * headers * float.

(** [fetch_website_content(url)], given what [session.get] does and the time
    it takes; the result and the line logged. *)
Definition fetch_website_content (url : str) (got : get_result) (elapsed : float)
  : fetch_result * log_entry :=
  let failed (e : RequestException) :=
    ((None, exc_status e, [], 0%float), LogFailed url (exc_status e) (description e)) in
  match got with
  | Responds r =>
      match raise_for_status r with
      | Some e => failed e
      | None =>
          ((Some (text r), Code (status_code r), resp_headers r, elapsed),
           LogFetched url (status_code r) elapsed)
      end
  | Raises e => failed e
  end.

(** What the call [session.get(...)] does: it returns a response or raises a
    [requests.RequestException], which is a [get_result]; or it raises an
    exception of another class, which [requests] lets through, as the
    [ValueError] of [urlparse] on the [Location] of a redirect. *)
Inductive get_call :=
| Gets (got : get_result)
| RaisesOther (error : str).

(** [fetch_website_content(url)] as a call: [except
    requests.RequestException] catches no exception of another class.
    [None]: the exception leaves the function. *)
Definition fetch_website_content_call (url : str) (call : get_call)
    (elapsed : float) : option (fetch_result * log_entry) :=
  match call with
  | Gets got => Some (fetch_website_content url got elapsed)
  | RaisesOther _ => None
  end.

(** ** The formatter *)

(** [escape_markdown]: a backslash before each of [\ * _ ` ~ | >]. *)
Definition escape_chars : str := [92; 42; 95; 96; 126; 124; 62]%N.

Definition escape_markdown (s : str) : str :=
  flat_map (fun c => if bool_decide (c ∈ escape_chars) then [92%N; c] else [c]) s.

Definition newline : str := [10%N].

Record embed_field := {
  name : str;
  value : str;
  inline : bool;
}.

Record embed := {
  embed_title : str;
  embed_url : str;
  color : Z;
  fields : list embed_field;
}.

Definition status_eq_200 (s : status) : bool :=
  match s with Code n => (n =? 200)%Z | NA => false end.

(** [f"{status_code}"] *)
Definition status_str (s : status) : str :=
  match s with Code n => str_of_Z n | NA => lit "N/A" end.

Definition green : Z := 0x2ecc71.
Definition red : Z := 0xe74c3c.

Section Formatter.
Context `{Libs}.

Definition format_json_ld (json_ld_data : list json) : str :=
  match mapM (fun item => match item with
                          | JDict _ => json_dumps item
                          | _ => Some (py_str item)
                          end) (take 2 json_ld_data) with
  | Some parts => safe_truncate_to (join newline parts) 700
  | None => lit "Error formatting JSON-LD"
  end.

Definition bullets (l : list str) : str :=
  join newline (map (fun h => lit "- " ++ escape_markdown h) l).

Definition status_text (status_code : status) : str :=
  if status_eq_200 status_code
  then status_str status_code ++ lit " OK"
  else lit "Error: " ++ status_str status_code.

(** The embed [send_discord_embed] posts (its timestamp and footer, which
    read the clock, are left out). *)
Definition send_discord_embed (domain : str) (scraped_data : page_record)
    (url : str) (status_code : status) : embed :=
  let color := if status_eq_200 status_code then green else red in
  let field n v i := {| name := n; value := v; inline := i |} in
  let count (l : list str) := str_of_Z (Z.of_nat (length l)) in
  let fields := [
    field (lit "Status") (status_text status_code) true;
    field (lit "Load Time (s)") (format_2f (load_time scraped_data)) true;
    field (lit "Server") (server scraped_data) true;
    field (lit "Content Length (bytes)") (content_length scraped_data) true;
    field (lit "Last-Modified") (last_modified scraped_data) false;
    field (lit "Title") (safe_truncate (escape_markdown (title scraped_data))) false;
    field (lit "Meta Description")
          (safe_truncate (escape_markdown (meta_description scraped_data))) false;
    field (lit "Meta Keywords")
          (safe_truncate (escape_markdown (meta_keywords scraped_data))) false;
    field (lit "Charset") (charset scraped_data) true;
    field (lit "Language") (lang scraped_data) true;
    field (lit "Canonical URL") (canonical_url scraped_data) false;
    field (lit "Robots Meta") (robots_meta scraped_data) false;
    field (lit "Top " ++ count (headlines scraped_data) ++ lit " H1 Headlines")
          (safe_truncate (bullets (headlines scraped_data))) false;
    field (lit "Top " ++ count (subheadlines scraped_data) ++ lit " H2 Subheadlines")
          (safe_truncate (bullets (subheadlines scraped_data))) false;
    field (lit "Summary Paragraphs")
          (safe_truncate (bullets (summaries scraped_data))) false;
    field (lit "Favicons (" ++ count (favicons scraped_data) ++ lit ")")
          (safe_truncate_to (join newline (favicons scraped_data)) 700) false;
    field (lit "Main Images (" ++ count (main_images scraped_data) ++ lit ")")
          (safe_truncate_to (join newline (main_images scraped_data)) 700) false;
    field (lit "Open Graph & Twitter Cards")
          (safe_truncate_to
             (join newline
                (map (fun kv => escape_markdown kv.1 ++ lit ": " ++ escape_markdown kv.2)
                     (open_graph scraped_data))) 700) false;
    field (lit "Internal Links Count")
          (str_of_Z (Z.of_nat (internal_links_count scraped_data))) true;
    field (lit "Internal Links Sample")
          (safe_truncate_to (join newline (internal_links_sample scraped_data)) 700) false;
    field (lit "External Links Count")
          (str_of_Z (Z.of_nat (external_links_count scraped_data))) true;
    field (lit "External Links Sample")
          (safe_truncate_to (join newline (external_links_sample scraped_data)) 700) false;
    field (lit "JSON-LD Structured Data (first 2 blocks)")
          (format_json_ld (json_ld scraped_data)) false
  ] in
  {| embed_title := lit "Wan Scraps: " ++ domain;
     embed_url := url;
     color := color;
     fields := fields |}.

End Formatter.

(** ** The orchestrator *)

(** The record [main] builds when the fetch gave no content. *)
Definition failed_record : page_record := {|
  title := lit "N/A";
  meta_description := lit "N/A";
  meta_keywords := lit "N/A";
  headlines := [lit "Failed to retrieve content."];
  subheadlines := [lit "Failed to retrieve content."];
  summaries := [lit "Failed to retrieve content."];
  charset := lit "N/A";
  lang := lit "N/A";
  json_ld := [JStr (lit "N/A")];
  open_graph := [(lit "N/A", lit "N/A")];
  favicons := [lit "N/A"];
  main_images := [lit "N/A"];
  canonical_url := lit "N/A";
  robots_meta := lit "N/A";
  internal_links_count := 0;
  external_links_count := 0;
  internal_links_sample := [];
  external_links_sample := [];
  last_modified := lit "N/A";
  content_length := lit "N/A";
  server := lit "N/A";
  load_time := 0%float;
|}.

Section Orchestrator.
Context `{Libs}.

(** [is_valid_url(url)] *)
Definition is_valid_url (url : str) : option bool :=
  scheme ← urlparse_scheme url;
  netloc ← urlparse_netloc url;
  Some (bool_decide (scheme = lit "http" ∨ scheme = lit "https")
        && negb (bool_decide (netloc = []))).

(** [not html] *)
Definition no_content (html : option str) : bool :=
  match html with
  | Some s => negb (truthy s)
  | None => true
  end.

(** The record [main] hands to the formatter for what the fetcher returned. *)
Definition scraped_data_for (url : str) (fetched : fetch_result) : option page_record :=
  let '(html, status_code, response_headers, load_time) := fetched in
  if no_content html
  then Some failed_record
  else smart_scrape (default [] html) url response_headers load_time.

(** One turn of [main]'s loop for a valid URL: fetch, scrape, format.
    [None]: an exception leaves [main]. *)
Definition process_url (url : str) (got : get_result) (elapsed : float)
  : option embed :=
  let '(fetched, _) := fetch_website_content url got elapsed in
  scraped_data ← scraped_data_for url fetched;
  domain ← urlparse_netloc url;
  Some (send_discord_embed domain scraped_data url (fetched.1.1.2)).

(** [main]'s loop over the URLs: the embeds sent, in order, and whether the
    loop ran to its end ([false]: an exception ended it). *)
Fixpoint main_loop (net : str -> get_result * float) (urls : list str)
  : list embed * bool :=
  match urls with
  | [] => ([], true)
  | url :: rest =>
      match is_valid_url url with
      | None => ([], false)
      | Some false => main_loop net rest
      | Some true =>
          match process_url url (net url).1 (net url).2 with
          | None => ([], false)
          | Some e => let '(sent, ok) := main_loop net rest in (e :: sent, ok)
          end
      end
  end.

End Orchestrator.

(** ** [urllib.parse] on strings

    The functions of [urllib/parse.py] that the program reaches through
    [urljoin] and [urlparse], for [str] arguments.  Two checks of [urlsplit]
    consult other modules and are parameters here: the validation of a
    bracketed host ([ipaddress]) and the NFKC check of a non-ASCII netloc
    ([unicodedata]). *)

Module Urllib.

Definition uses_relative : list str :=
  map lit ["" ; "ftp"; "http"; "gopher"; "nntp"; "imap"; "wais"; "file";
           "https"; "shttp"; "mms"; "prospero"; "rtsp"; "rtspu"; "sftp";
           "svn"; "svn+ssh"; "ws"; "wss"]%string.

Definition uses_netloc : list str :=
  map lit [""; "ftp"; "http"; "gopher"; "nntp"; "telnet"; "imap"; "wais";
           "file"; "mms"; "https"; "shttp"; "snews"; "prospero"; "rtsp";
           "rtspu"; "rsync"; "svn"; "svn+ssh"; "sftp"; "nfs"; "git";
           "git+ssh"; "ws"; "wss"]%string.

Definition uses_params : list str :=
  map lit [""; "ftp"; "hdl"; "prospero"; "http"; "imap"; "https"; "shttp";
           "rtsp"; "rtspu"; "sip"; "sips"; "mms"; "sftp"; "tel"]%string.

Definition is_upper (c : char) : bool := ((65 <=? c) && (c <=? 90))%N.
Definition is_lower (c : char) : bool := ((97 <=? c) && (c <=? 122))%N.
Definition is_digit (c : char) : bool := ((48 <=? c) && (c <=? 57))%N.

(** [c in scheme_chars] *)
Definition scheme_char (c : char) : bool :=
  is_lower c || is_upper c || is_digit c
  || bool_decide (c ∈ lit "+-.").

(** [str.lower] on ASCII text. *)
Definition ascii_lower (s : str) : str :=
  map (fun c => if is_upper c then (c + 32)%N else c) s.

Definition isascii (s : str) : bool := forallb (fun c => (c <? 128)%N) s.

(** [_WHATWG_C0_CONTROL_OR_SPACE] *)
Definition c0_or_space (c : char) : bool := (c <=? 32)%N.

(** [_UNSAFE_URL_BYTES_TO_REMOVE] *)
Definition unsafe_byte (c : char) : bool := bool_decide (c ∈ [9; 13; 10]%N).

Fixpoint lstrip_if (p : char -> bool) (s : str) : str :=
  match s with
  | c :: s' => if p c then lstrip_if p s' else s
  | [] => []
  end.

Definition strip_if (p : char -> bool) (s : str) : str :=
  reverse (lstrip_if p (reverse (lstrip_if p s))).

(** The part of [s] before the first character satisfying [p], and the rest
    from that character on. *)
Fixpoint break_at (p : char -> bool) (s : str) : str * str :=
  match s with
  | [] => ([], [])
  | c :: s' =>
      if p c then ([], s)
      else let '(a, b) := break_at p s' in (c :: a, b)
  end.

Definition is_char (c : char) (d : char) : bool := bool_decide (d = c).
Definition has_char (c : char) (s : str) : bool := bool_decide (c ∈ s).

(** [s.split(c, 1)] when [c in s]: the text before and after the first [c]. *)
Definition split1 (c : char) (s : str) : str * str :=
  let '(a, b) := break_at (is_char c) s in (a, drop 1 b).

Definition colon : char := 58%N.
Definition slash : char := 47%N.
Definition question : char := 63%N.
Definition hash : char := 35%N.
Definition semicolon : char := 59%N.
Definition lbracket : char := 91%N.
Definition rbracket : char := 93%N.

Section Split.
(** [_check_bracketed_netloc] and [_checknetloc] do not raise on this netloc. *)
Variable bracketed_ok : str -> bool.
Variable nfkc_ok : str -> bool.

(** [urlsplit(url, scheme)]: scheme, netloc, path, query, fragment; [None]
    when it raises [ValueError]. *)
Definition urlsplit (url scheme : str) : option (str * str * str * str * str) :=
  let url := lstrip_if c0_or_space url in
  let scheme := strip_if c0_or_space scheme in
  let url := filter (fun c => unsafe_byte c = false) url in
  let scheme := filter (fun c => unsafe_byte c = false) scheme in
  let '(scheme, url) :=
    let '(pre, post) := break_at (is_char colon) url in
    match pre, post with
    | c :: _, _ :: rest =>
        if (is_lower c || is_upper c) && forallb scheme_char pre
        then (ascii_lower pre, rest)
        else (scheme, url)
    | _, _ => (scheme, url)
    end in
  '(netloc, url) ←
    (if bool_decide (take 2 url = [slash; slash]) then
       let '(netloc, rest) :=
         break_at (fun c => is_char slash c || is_char question c || is_char hash c)
                  (drop 2 url) in
       if has_char lbracket netloc && negb (has_char rbracket netloc)
          || has_char rbracket netloc && negb (has_char lbracket netloc)
       then None
       else if has_char lbracket netloc && has_char rbracket netloc
               && negb (bracketed_ok netloc)
       then None
       else Some (netloc, rest)
     else Some ([], url));
  let '(url, fragment) :=
    if has_char hash url then split1 hash url else (url, []) in
  let '(url, query) :=
    if has_char question url then split1 question url else (url, []) in
  if truthy netloc && negb (isascii netloc) && negb (nfkc_ok netloc)
  then None
  else Some (scheme, netloc, url, query, fragment).

(** [_splitparams(url)]: cut at the first [;] after the last [/]. *)
Definition splitparams (url : str) : str * str :=
  let '(last_seg_rev, dirs_rev) := break_at (is_char slash) (reverse url) in
  let dirs := reverse dirs_rev in
  let last_seg := reverse last_seg_rev in
  if has_char semicolon last_seg
  then let '(a, b) := split1 semicolon last_seg in (dirs ++ a, b)
  else (url, []).

(** [urlparse(url, scheme)]: scheme, netloc, path, params, query, fragment. *)
Definition urlparse (url scheme : str)
  : option (str * str * str * str * str * str) :=
  '(scheme, netloc, url, query, fragment) ← urlsplit url scheme;
  let '(url, params) :=
    if bool_decide (scheme ∈ uses_params) && has_char semicolon url
    then splitparams url else (url, []) in
  Some (scheme, netloc, url, params, query, fragment).

Definition urlunsplit (scheme netloc url query fragment : str) : str :=
  let url :=
    if truthy netloc
       || (truthy scheme && bool_decide (scheme ∈ uses_netloc)
           && negb (bool_decide (take 2 url = [slash; slash])))
    then
      let url := if truthy url && negb (bool_decide (take 1 url = [slash]))
                 then slash :: url else url in
      [slash; slash] ++ netloc ++ url
    else url in
  let url := if truthy scheme then scheme ++ [colon] ++ url else url in
  let url := if truthy query then url ++ [question] ++ query else url in
  if truthy fragment then url ++ [hash] ++ fragment else url.

Definition urlunparse (scheme netloc url params query fragment : str) : str :=
  let url := if truthy params then url ++ [semicolon] ++ params else url in
  urlunsplit scheme netloc url query fragment.

(** The loop of [urljoin] over the path segments. *)
Fixpoint resolve_segments (segments resolved_path : list str) : list str :=
  match segments with
  | [] => resolved_path
  | seg :: rest =>
      if decide (seg = lit "..")
      then resolve_segments rest (take (length resolved_path - 1) resolved_path)
      else if decide (seg = lit ".")
      then resolve_segments rest resolved_path
      else resolve_segments rest (resolved_path ++ [seg])
  end.

(** [segments[1:-1] = filter(None, segments[1:-1])] *)
Definition drop_inner_empty (segments : list str) : list str :=
  let n := length segments in
  take 1 segments
  ++ filter (fun seg => truthy seg = true) (take (n - 2) (drop 1 segments))
  ++ (if Nat.leb 2 n then drop (n - 1) segments else []).

Definition urljoin (base url : str) : option str :=
  if negb (truthy base) then Some url
  else if negb (truthy url) then Some base
  else
    '(bscheme, bnetloc, bpath, bparams, bquery, bfragment) ← urlparse base [];
    '(scheme, netloc, path, params, query, fragment) ← urlparse url bscheme;
    if negb (bool_decide (scheme = bscheme))
       || negb (bool_decide (scheme ∈ uses_relative))
    then Some url
    else
      let uses := bool_decide (scheme ∈ uses_netloc) in
      if uses && truthy netloc
      then Some (urlunparse scheme netloc path params query fragment)
      else
        let netloc := if uses then bnetloc else netloc in
        if negb (truthy path) && negb (truthy params)
        then
          let query := if truthy query then query else bquery in
          Some (urlunparse scheme netloc bpath bparams query fragment)
        else
          let base_parts := Py.split [slash] bpath in
          let base_parts :=
            if truthy (last_item base_parts)
            then take (length base_parts - 1) base_parts else base_parts in
          let segments :=
            if bool_decide (take 1 path = [slash])
            then Py.split [slash] path
            else drop_inner_empty (base_parts ++ Py.split [slash] path) in
          let resolved_path := resolve_segments segments [] in
          let resolved_path :=
            if bool_decide (last_item segments ∈ [lit "."; lit ".."])
            then resolved_path ++ [[]] else resolved_path in
          let joined := join [slash] resolved_path in
          Some (urlunparse scheme netloc
                  (if truthy joined then joined else [slash])
                  params query fragment).

Definition netloc_of (url : str) : option str :=
  '(_, netloc, _, _, _, _) ← urlparse url []; Some netloc.

Definition scheme_of (url : str) : option str :=
  '(scheme, _, _, _, _, _) ← urlparse url []; Some scheme.

End Split.
End Urllib.

(** ** The retry policy ([urllib3.util.Retry] under [requests])

    Every request of the session goes through the adapter mounted with
    [retries]: urllib3's [urlopen] sends the request and, while the [Retry]
    object allows, sends it again.  The program sets [total],
    [backoff_factor], [status_forcelist] and [allowed_methods]; the other
    counters of [Retry] stay [None], so [is_exhausted] reads [total] alone.
    The adapter calls [urlopen] with [redirect=False]: redirects are
    followed by the session, below. *)

Module Urllib3.

Record Retry := {
  total : Z;
  backoff_factor : Z;
  status_forcelist : list Z;
  allowed_methods : list str;
  history : nat;   (* how many failed attempts the object has recorded *)
}.

Definition RETRY_AFTER_STATUS_CODES : list Z := [413; 429; 503]%Z.
Definition DEFAULT_BACKOFF_MAX : Z := 120.

(** [Retry.is_exhausted]: a counter has gone below zero. *)
Definition is_exhausted (r : Retry) : bool := (total r <? 0)%Z.

(** [Retry.increment]: one retry fewer, one more entry of history; [None]
    is [MaxRetryError]. *)
Definition increment (r : Retry) : option Retry :=
  let new_retry := {| total := total r - 1;
                      backoff_factor := backoff_factor r;
                      status_forcelist := status_forcelist r;
                      allowed_methods := allowed_methods r;
                      history := S (history r) |} in
  if is_exhausted new_retry then None else Some new_retry.

(** [Retry._is_method_retryable] *)
Definition is_method_retryable (r : Retry) (method : str) : bool :=
  match allowed_methods r with
  | [] => true
  | methods => bool_decide (method ∈ methods)
  end.

(** [Retry.is_retry(method, status_code, has_retry_after)] *)
Definition is_retry (r : Retry) (method : str) (status_code : Z)
    (has_retry_after : bool) : bool :=
  if negb (is_method_retryable r method) then false
  else if bool_decide (status_code ∈ status_forcelist r) then true
  else negb (total r =? 0)%Z && has_retry_after
       && bool_decide (status_code ∈ RETRY_AFTER_STATUS_CODES).

(** [Retry.get_backoff_time], in seconds. *)
Definition get_backoff_time (r : Retry) : Z :=
  if Nat.leb (history r) 1 then 0%Z
  else Z.min DEFAULT_BACKOFF_MAX
             (backoff_factor r * 2 ^ Z.of_nat (history r - 1))%Z.

(** [Retry.sleep(response)]: the seconds slept before the next attempt, the
    server's [Retry-After] when it names a positive time, the backoff time
    otherwise (0: no sleep). *)
Definition sleep (r : Retry) (retry_after : option Z) : Z :=
  match retry_after with
  | Some s => if (0 <? s)%Z then s else get_backoff_time r
  | None => get_backoff_time r
  end.

(** What one attempt meets: a network-level failure (no connection, a
    timeout, a broken read; for [GET] they are retried alike), or a response,
    with the seconds of its [Retry-After] header when it has one. *)
Inductive attempt :=
| Fails (error : str)
| Answers (r : response) (retry_after : option Z).

(** A finished [session.get]: what it hands back, the requests it sent and
    the pauses between them. *)
Record run := {
  outcome : get_result;
  attempts : nat;
  sleeps : list Z;
}.

Definition after_pause (pause : Z) (r : run) : run :=
  {| outcome := outcome r; attempts := attempts r; sleeps := pause :: sleeps r |}.

(** [urlopen], attempt number [k] (from 0) with the retries left in
    [retries]; [net] says what each attempt meets.  [fuel] bounds the
    recursion. *)
Fixpoint urlopen (fuel : nat) (retries : Retry) (method : str)
    (net : nat -> attempt) (k : nat) : option run :=
  match fuel with
  | O => None
  | S fuel' =>
      let stop (g : get_result) :=
        Some {| outcome := g; attempts := S k; sleeps := [] |} in
      match net k with
      | Fails error =>
          match increment retries with
          | Some retries' =>
              after_pause (sleep retries' None)
                <$> urlopen fuel' retries' method net (S k)
          | None => stop (Raises {| description := error; exc_response := None |})
          end
      | Answers r retry_after =>
          if is_retry retries method (status_code r)
                      (match retry_after with Some _ => true | None => false end)
          then
            match increment retries with
            | Some retries' =>
                after_pause (sleep retries' retry_after)
                  <$> urlopen fuel' retries' method net (S k)
            | None =>
                stop (Raises {| description := lit "too many "
                                  ++ str_of_Z (status_code r) ++ lit " error responses";
                                exc_response := None |})
            end
          else stop (Responds r)
      end
  end.

(** The [Retry] object of the program. *)
Definition retries : Retry := {|
  total := 5;
  backoff_factor := 1;
  status_forcelist := [429; 500; 502; 503; 504]%Z;
  allowed_methods := [lit "HEAD"; lit "GET"; lit "OPTIONS"];
  history := 0;
|}.

(** [HTTPAdapter.send]: one [urlopen] with [retries=self.max_retries], so
    with the whole budget of [retries] each time; [MaxRetryError] becomes a
    [requests] exception that carries no response.  [None]: the fuel of
    [urlopen] ran out, which it does not. *)
Definition adapter_send (net : nat -> attempt) : option run :=
  urlopen (Z.to_nat (total retries) + 2) retries (lit "GET") net 0.

End Urllib3.

(** ** The session ([requests.Session.get])

    [session.get] sends the request through the adapter and, as
    [allow_redirects] is true for [GET], follows redirects: while the
    response is a redirect that names a [Location], [resolve_redirects]
    reads the new URL with [urlparse] and sends a request for it through the
    adapter again, at most [max_redirects] times.  The body of a response
    that arrives is taken to be read in full. *)

(** [REDIRECT_STATI] *)
Definition REDIRECT_STATI : list Z := [301; 302; 303; 307; 308]%Z.

(** [DEFAULT_REDIRECT_LIMIT], the session's [max_redirects]. *)
Definition DEFAULT_REDIRECT_LIMIT : nat := 30.

(** What becomes of one URL the session is to request: [requests] raises a
    [RequestException] before anything is sent (the URL cannot be prepared,
    no adapter serves its scheme), or the adapter sends it, and each request
    of its [urlopen] meets what [attempts] says. *)
Inductive target :=
| Rejected (error : str)
| Sent (attempts : nat -> Urllib3.attempt).

(** A finished [session.get]: what the call does, and the runs of [urlopen]
    it made, one for each URL requested, in order. *)
Record session_run := {
  session_outcome : get_call;
  hops : list Urllib3.run;
}.



Definition after_hop (rn : Urllib3.run) (sr : session_run) : session_run :=
  {| session_outcome := session_outcome sr; hops := rn :: hops sr |}.

Section Session.
Context `{Libs}.

(** [key in headers] and [headers[key]] on the response's case-insensitive
    dictionary. *)
Fixpoint headers_find (hs : headers) (key : str) : option str :=
  match hs with
  | [] => None
  | (k, v) :: hs' =>
      if decide (lower k = lower key) then Some v else headers_find hs' key
  end.

(** [get_redirect_target(resp)]: the [Location] when [resp.is_redirect]. *)
Definition get_redirect_target (resp : response) : option str :=
  if bool_decide (status_code resp ∈ REDIRECT_STATI)
  then headers_find (resp_headers resp) (lit "location")
  else None.

(** The first steps of [resolve_redirects] on the target [url]: a scheme in
    front of a URL that starts with [//], then [urlparse(url)]; the netloc
    read, or [None] when [urlparse] raises [ValueError]. *)
Definition parse_redirect (resp : response) (url : str) : option str :=
  url ← (if startswith (lit "//") url
         then scheme ← urlparse_scheme (resp_url resp);
              Some (scheme ++ lit ":" ++ url)
         else Some url);
  urlparse_netloc url.

(** [Session.send] and the loop of [resolve_redirects], from the URL number
    [hop] on; [redirects_left] is [max_redirects - len(resp.history)], so
    that [TooManyRedirects], which carries the response, is raised when it
    is 0.  The [ValueError] of a [Location] that does not parse is not a
    [RequestException].  [None]: see [adapter_send]. *)
Fixpoint session_send (redirects_left : nat) (net : nat -> target) (hop : nat)
  : option session_run :=
  match net hop with
  | Rejected error =>
      Some {| session_outcome :=
                Gets (Raises {| description := error; exc_response := None |});
              hops := [] |}
  | Sent attempts =>
      rn ← Urllib3.adapter_send attempts;
      let stop (call : get_call) :=
        Some {| session_outcome := call; hops := [rn] |} in
      match Urllib3.outcome rn with
      | Raises e => stop (Gets (Raises e))
      | Responds resp =>
          match get_redirect_target resp with
          | Some url =>
              if truthy url then
                match parse_redirect resp url with
                | None => stop (RaisesOther (lit "ValueError"))
                | Some _ =>
                    match redirects_left with
                    | O =>
                        stop (Gets (Raises
                          {| description := lit "Exceeded 30 redirects.";
                             exc_response := Some resp |}))
                    | S redirects_left' =>
                        after_hop rn
                          <$> session_send redirects_left' net (S hop)
                    end
                end
              else stop (Gets (Responds resp))
          | None => stop (Gets (Responds resp))
          end
      end
  end.


(** [session.get(url, headers=HEADERS, timeout=10)] *)
Definition session_get (net : nat -> target) : option session_run :=
  session_send DEFAULT_REDIRECT_LIMIT net 0.

(** [fetch_website_content] on top of the session.  The outer [None] is that
    of [adapter_send]; [Some None]: an exception leaves
    [fetch_website_content]. *)
Definition fetch (url : str) (net : nat -> target) (elapsed : float)
  : option (option (fetch_result * log_entry)) :=
  sr ← session_get net;
  Some (fetch_website_content_call url (session_outcome sr) elapsed).

End Session.

(** ** An instance of the libraries for concrete inputs

    The parser rejects no markup and is given by the document it returns;
    [json.loads] knows the texts used below and rejects every other one;
    [str.lower] is the ASCII one; [urllib.parse] is the translation above
    (no host with both brackets and no non-ASCII netloc occurs below). *)

Definition example_loads (s : str) : option json :=
  if decide (s = lit "{}") then Some (JDict [])
  else if decide (s = lit "[1]") then Some (JList [JInt 1])
  else if decide (s = lit "null") then Some JNull
  else None.

Definition example_libs (sp : soup) : Libs := {|
  rejects_markup := fun _ => false;
  BeautifulSoup := fun _ => sp;
  lower := Urllib.ascii_lower;
  json_loads := example_loads;
  urljoin := Urllib.urljoin (fun _ => true) (fun _ => true);
  urlparse_netloc := Urllib.netloc_of (fun _ => true) (fun _ => true);
  urlparse_scheme := Urllib.scheme_of (fun _ => true) (fun _ => true);
  json_dumps := fun j => match j with JDict [] => Some (lit "{}") | _ => None end;
  py_str := fun j => match j with JStr s => s | _ => lit "None" end;
  format_2f := fun _ => lit "0.00";
|}.

(** ** Reading the URLs *)

(** [get_urls_from_input()], given the line [input()] returns. *)
Definition get_urls_from_input (line : str) : list str :=
  let user_input := strip line in
  filter (fun url => truthy url = true)
         (map strip (Py.split (lit ",") user_input)).

Section Main.
Context `{Libs}.

(** [main()], given the command-line arguments after the program's name and
    the line typed when there is none: the embeds sent, and whether the loop
    ran to its end. *)
Definition main (args : list str) (line : str) (net : str -> get_result * float)
  : list embed * bool :=
  let urls := match args with
              | [] => get_urls_from_input line
              | _ => args
              end in
  main_loop net urls.

(** The [prop] of a [meta] tag in [extract_open_graph]. *)
Definition og_prop (tag : node) : str :=
  or_str (get tag (lit "property")) (or_str (get tag (lit "name")) []).

(** The test of [extract_open_graph] on [prop]. *)
Definition is_social (prop : str) : bool :=
  startswith (lit "og:") prop || startswith (lit "twitter:") prop.

(** The value [extract_open_graph] stores for a tag. *)
Definition og_content (tag : node) : str :=
  get_default tag (lit "content") (lit "Not found").

End Main.

(** The non-empty values of attribute [key] among [tags], in order. *)
Definition attr_values (key : str) (tags : list node) : list str :=
  filter (fun v => truthy v = true) (omap (fun tag => get tag key) tags).

(** A URL as [get_urls_from_input] returns them: not empty, no white space
    around it, no comma in it. *)
Definition comma : char := 44%N.

Definition clean_url (url : str) : Prop :=
  url ≠ [] ∧ strip url = url ∧ comma ∉ url.

(** The characters [escape_markdown] puts a backslash before. *)
Definition special (c : char) : bool := bool_decide (c ∈ escape_chars).

(** Reading an escaped text back: a backslash is dropped and the character
    after it kept. *)
Fixpoint unescape_markdown (s : str) : str :=
  match s with
  | [] => []
  | c :: s' =>
      if decide (c = 92%N)
      then match s' with
           | d :: s'' => d :: unescape_markdown s''
           | [] => []
           end
      else c :: unescape_markdown s'
  end.

(** ** The shape of a URL

    What [urlsplit] looks at first: the URL without its leading control
    characters and spaces and without any tab, carriage return or line
    feed. *)
Definition cleaned (url : str) : str :=
  filter (fun c => Urllib.unsafe_byte c = false)
         (Urllib.lstrip_if Urllib.c0_or_space url).

(** The characters that end the netloc: [/], [?] and [#]. *)
Definition delimiter (c : char) : bool :=
  Urllib.is_char Urllib.slash c || Urllib.is_char Urllib.question c
  || Urllib.is_char Urllib.hash c.

(** [http] or [https], in any case. *)
Definition web_scheme (scheme : str) : Prop :=
  Urllib.ascii_lower scheme = lit "http"
  ∨ Urllib.ascii_lower scheme = lit "https".

(** A non-empty host of ASCII characters other than the delimiters and the
    square brackets. *)
Definition plain_host (host : str) : Prop :=
  host ≠ [] ∧ ∀ c, c ∈ host →
    delimiter c = false ∧ c ≠ Urllib.lbracket ∧ c ≠ Urllib.rbracket
    ∧ (c < 128)%N.

(** Nothing, or text that starts with a delimiter. *)
Definition ends_host (rest : str) : Prop :=
  rest = [] ∨ ∃ c rest', rest = c :: rest' ∧ delimiter c = true.

(** ** The specification's wording

    Definitions that follow the words of the specification, to be compared
    with the program's. *)

(** "non-empty and strictly longer than 50 characters" *)
Definition qualifies (t : str) : bool :=
  bool_decide (t ≠ [] ∧ 50 < length t).

(** "the first at-most-[n]" qualifying texts, "in document order" *)
Fixpoint first_qualifying (n : nat) (texts : list str) : list str :=
  match n, texts with
  | S n', t :: rest =>
      if qualifies t then t :: first_qualifying n' rest
      else first_qualifying n rest
  | _, _ => []
  end.

(** The trimmed texts of the paragraph elements, in document order. *)
Definition paragraph_texts (sp : soup) : list str :=
  map get_text_strip (find_all (lit "p") any_tag sp).

Definition summaries_spec (sp : soup) : list str :=
  first_qualifying 5 (paragraph_texts sp).

(** "the trimmed text content of the first title element", the sentinel
    "whenever the title element is absent or its text is empty after
    trimming" *)
Definition title_spec (sp : soup) : str :=
  match find (lit "title") any_tag sp with
  | Some t => let s := strip (get_text t) in
              if truthy s then s else lit "Title not found"
  | None => lit "Title not found"
  end.

Section SpecWording.
Context `{Libs}.

(** "every anchor href that is non-empty and neither a bare fragment nor a
    javascript: pseudo-link" *)
Definition covered_hrefs_spec (sp : soup) : list str :=
  filter (fun h => truthy h && negb (startswith (lit "#") h)
                   && negb (startswith (lit "javascript:") (lower h)) = true)
         (omap (fun a => get a (lit "href")) (find_all (lit "a") any_tag sp)).

(** The hrefs [count_links] resolves: of every anchor that has the
    attribute, the stripped value unless it is passed over. *)
Definition kept_of (anchors : list node) : list str :=
  filter (fun h => skipped_href h = false)
         (omap (fun a => strip <$> get a (lit "href")) anchors).

Definition kept_hrefs (sp : soup) : list str :=
  kept_of (find_all (lit "a") (has_attr (lit "href")) sp).

(** [urljoin] resolves [h] against the base, and [urlparse] reads the
    result. *)
Definition resolves (base_url h : str) : Prop :=
  ∃ u nl, urljoin base_url h = Some u ∧ urlparse_netloc u = Some nl.

(** [urllib.parse] raises neither on the base URL nor on an [href] or [src]
    value of the document, as written or stripped. *)
Definition resolvable (sp : soup) (base_url : str) : Prop :=
  is_Some (urlparse_netloc base_url)
  ∧ ∀ n key v, n ∈ soup_descendants sp →
      key = lit "href" ∨ key = lit "src" →
      get n key = Some v →
      resolves base_url v ∧ resolves base_url (strip v).

(** [json.loads(script.string)] for one block; [None]: the block is passed
    over. *)
Definition parse_block (script : node) : option json :=
  string_of script ≫= json_loads.

Definition ld_json_blocks (sp : soup) : list node :=
  find_all (lit "script") (attr_is (lit "type") (lit "application/ld+json")) sp.

End SpecWording.

(** The document has no tag called [name]. *)
Definition absent (name : str) (sp : soup) : Prop :=
  ∀ n, n ∈ soup_descendants sp → is_tag name n = false.






(** Documents and responses used at concrete inputs. *)
Definition page_url : str := lit "http://a.com/x".

Definition text_node (s : str) : node := Str NavigableString s.

Definition paragraph (s : str) : node := Tag (lit "p") [] [text_node s].

Definition anchor (href : str) : node :=
  Tag (lit "a") [(lit "href", href)] [text_node (lit "link")].

Definition ld_json_block (txt : str) : node :=
  Tag (lit "script") [(lit "type", lit "application/ld+json")] [Str Script txt].

(** A redirect to [location]. *)
Definition redirect (code : Z) (location : str) : response := {|
  text := [];
  status_code := code;
  reason := lit "";
  resp_url := page_url;
  resp_headers := [(lit "Location", location)];
|}.

Definition answer (code : Z) (body : str) : response := {|
  text := body;
  status_code := code;
  reason := lit "";
  resp_url := page_url;
  resp_headers := [(lit "Server", lit "nginx")];
|}.

(** * Theorems *)

(** ** Strings and lists *)

Lemma or_list_nonempty {A} (l d : list A) : d ≠ [] → or_list l d ≠ [].
Proof. by destruct l. Qed.

Lemma or_list_nil {A} (d : list A) : or_list [] d = d.
Proof. done. Qed.

Lemma truthy_true (s : str) : truthy s = true ↔ s ≠ [].
Proof. by destruct s. Qed.


Lemma qualifies_iff (t : str) :
  qualifies t = true ↔ truthy t && Nat.ltb 50 (length t) = true.
Proof.
  unfold qualifies. rewrite bool_decide_eq_true, andb_true_iff, truthy_true.
  rewrite Nat.ltb_lt. done.
Qed.

Lemma first_qualifying_filter (n : nat) (texts : list str) :
  first_qualifying n texts
  = take n (filter (fun t => truthy t && Nat.ltb 50 (length t) = true) texts).
Proof.
  revert n. induction texts as [|t texts IH]; intros n.
  - by destruct n.
  - destruct n as [|n].
    + by rewrite take_0.
    + simpl. rewrite filter_cons.
      destruct (qualifies t) eqn:Hq.
      * apply qualifies_iff in Hq. rewrite decide_True by done.
        simpl. by rewrite IH.
      * rewrite decide_False; [apply (IH (S n))|].
        intros Hq'. apply qualifies_iff in Hq'. congruence.
Qed.

Lemma first_qualifying_length (n : nat) (texts : list str) :
  length (first_qualifying n texts) ≤ n.
Proof. rewrite first_qualifying_filter, length_take. lia. Qed.

(** ** Truncation *)

(** C8: [safe_truncate] leaves a text of at most 700 characters as it is,
    and cuts a longer one to its first 700 characters followed by the
    marker, the one character U+2026 (horizontal ellipsis): the result is
    then 701 characters long and differs from the bare prefix. *)
Theorem safe_truncate_700 (text : str) :
  (length text ≤ 700 → safe_truncate text = text)
  ∧ (700 < length text →
     safe_truncate text = take 700 text ++ [8230%N]
     ∧ length (safe_truncate text) = 701
     ∧ safe_truncate text ≠ take 700 text).
Proof.
  unfold safe_truncate, safe_truncate_to, ellipsis. split; intros Hlen.
  - destruct (Nat.ltb_spec 700 (length text)); [lia | done].
  - destruct (Nat.ltb_spec 700 (length text)); [|lia].
    split; [done|]. split.
    + rewrite length_app, length_take, Nat.min_l by lia. done.
    + intros Heq. apply (f_equal length) in Heq.
      rewrite length_app in Heq. simpl in Heq. unfold str in *. lia.
Qed.

(** A text of exactly 700 characters is unchanged; one of 701 keeps 700 and
    gains the marker. *)
Lemma safe_truncate_700_witness :
  safe_truncate (replicate 700 97%N) = replicate 700 97%N
  ∧ safe_truncate (replicate 701 97%N) = replicate 700 97%N ++ [8230%N]
  ∧ length (safe_truncate (replicate 701 97%N)) = 701.
Proof.
  split.
  - apply (proj1 (safe_truncate_700 (replicate 700 97%N))).
    rewrite length_replicate. lia.
  - destruct (proj2 (safe_truncate_700 (replicate 701 97%N))) as (Heq & Hlen & _).
    + rewrite length_replicate. lia.
    + split; [|done]. rewrite Heq. by rewrite take_replicate.
Defined.

(** ** The extractor, field by field *)

Section ExtractorFacts.
Context `{Libs}.

Lemma extract_json_ld_loop_omap (scripts : list node) (data : list json) :
  extract_json_ld_loop scripts data = data ++ omap parse_block scripts.
Proof.
  revert data. induction scripts as [|s scripts IH]; intros data; simpl.
  - by rewrite app_nil_r.
  - unfold parse_block at 1. destruct (string_of s) as [txt|]; simpl; [|apply IH].
    destruct (json_loads txt) as [d|]; simpl; [|apply IH].
    by rewrite IH, <- app_assoc.
Qed.

Lemma extract_json_ld_parsed (sp : soup) :
  extract_json_ld sp
  = or_list (omap parse_block (ld_json_blocks sp)) [JStr (lit "Not found")].
Proof.
  unfold extract_json_ld. by rewrite extract_json_ld_loop_omap.
Qed.

(** What [smart_scrape] returns when it returns: the four helpers that
    resolve URLs returned, and the record is built from their results. *)
Lemma smart_scrape_Some (html base_url : str) (hs : headers) (t : float)
    (r : page_record) :
  smart_scrape html base_url hs t = Some r →
  let sp := BeautifulSoup html in
  ∃ cs fav imgs canon il el,
    scrape_charset sp = Some cs
    ∧ find_favicons sp base_url = Some fav
    ∧ get_main_images sp base_url = Some imgs
    ∧ get_canonical_url sp base_url = Some canon
    ∧ count_links sp base_url = Some (il, el)
    ∧ r = {|
        title := scrape_title sp;
        meta_description :=
          scrape_meta sp (lit "description") (lit "Meta description not found");
        meta_keywords :=
          scrape_meta sp (lit "keywords") (lit "Meta keywords not found");
        headlines := or_list (take 5 (heading_texts sp (lit "h1"))) [lit "No H1 tags found"];
        subheadlines := or_list (take 5 (heading_texts sp (lit "h2"))) [lit "No H2 tags found"];
        summaries := or_list (take 5 (paragraphs sp)) [lit "No meaningful paragraphs found"];
        charset := or_str cs (lit "Unknown");
        lang := or_str (scrape_lang sp) (lit "Unknown");
        json_ld := extract_json_ld sp;
        open_graph := extract_open_graph sp;
        favicons := fav;
        main_images := imgs;
        canonical_url := canon;
        robots_meta := get_robots_meta sp;
        internal_links_count := length il;
        external_links_count := length el;
        internal_links_sample := or_list (take 5 il) [lit "None"];
        external_links_sample := or_list (take 5 el) [lit "None"];
        last_modified := headers_get hs (lit "Last-Modified") (lit "Not found");
        content_length := headers_get hs (lit "Content-Length") (lit "Unknown");
        server := headers_get hs (lit "Server") (lit "Unknown");
        load_time := t;
      |}.
Proof.
  intros Hr sp. unfold smart_scrape in Hr.
  destruct (rejects_markup html); [done|]. fold sp in Hr.
  destruct (scrape_charset sp) as [cs|]; [|done].
  destruct (find_favicons sp base_url) as [fav|]; [|done].
  destruct (get_main_images sp base_url) as [imgs|]; [|done].
  destruct (get_canonical_url sp base_url) as [canon|]; [|done].
  destruct (count_links sp base_url) as [[il el]|]; [|done].
  simpl in Hr. injection Hr as <-.
  by exists cs, fav, imgs, canon, il, el.
Qed.

(** The converse: when the parser and the helpers return, so does
    [smart_scrape]. *)
Lemma smart_scrape_returns (html base_url : str) (hs : headers) (t : float) :
  let sp := BeautifulSoup html in
  rejects_markup html = false →
  is_Some (scrape_charset sp) →
  is_Some (find_favicons sp base_url) →
  is_Some (get_main_images sp base_url) →
  is_Some (get_canonical_url sp base_url) →
  is_Some (count_links sp base_url) →
  is_Some (smart_scrape html base_url hs t).
Proof.
  intros sp Hparsed [cs Hcs] [fav Hfav] [imgs Himgs] [canon Hcanon] [[il el] Hlinks].
  unfold smart_scrape. rewrite Hparsed. fold sp.
  rewrite Hcs, Hfav, Himgs, Hcanon, Hlinks. simpl. eauto.
Qed.

Lemma paragraphs_spec (sp : soup) : take 5 (paragraphs sp) = summaries_spec sp.
Proof.
  unfold summaries_spec, paragraphs, paragraph_texts.
  by rewrite first_qualifying_filter.
Qed.

End ExtractorFacts.

(** Replace the record [smart_scrape] returned by the fields it was built
    from. *)
Ltac scrape_fields Hr :=
  destruct (smart_scrape_Some _ _ _ _ _ Hr)
    as (? & ? & ? & ? & ? & ? & _ & _ & _ & _ & _ & ->);
  simpl.

(** C9: every [application/ld+json] block is parsed on its own; a block that
    does not parse is passed over and the others are kept, in order; a page
    with one valid and one malformed block yields the valid one alone; when
    no block parses the result is the one-element list ["Not found"]. *)
Theorem extract_json_ld_resilient `{Libs} (sp : soup) :
  let parsed := omap parse_block (ld_json_blocks sp) in
  (parsed ≠ [] → extract_json_ld sp = parsed)
  ∧ (parsed = [] → extract_json_ld sp = [JStr (lit "Not found")])
  ∧ (∀ valid malformed v,
       parse_block valid = Some v →
       parse_block malformed = None →
       ld_json_blocks sp = [valid; malformed]
       ∨ ld_json_blocks sp = [malformed; valid] →
       extract_json_ld sp = [v]).
Proof.
  intros parsed. rewrite extract_json_ld_parsed. fold parsed.
  split; [|split].
  - by destruct parsed.
  - by intros ->.
  - intros valid malformed v Hv Hm Hblocks. unfold parsed.
    destruct Hblocks as [-> | ->]; simpl; by rewrite Hv, Hm.
Qed.

(** A page with a valid block, ["{}"], and a malformed one, ["{oops"]. *)
Lemma extract_json_ld_resilient_witness :
  let sp := [Tag (lit "html") [] [ld_json_block (lit "{}"); ld_json_block (lit "{oops")]] in
  @extract_json_ld (example_libs sp) sp = [JDict []].
Proof.
  intros sp.
  apply (proj2 (proj2 (@extract_json_ld_resilient (example_libs sp) sp))
           (ld_json_block (lit "{}")) (ld_json_block (lit "{oops")) (JDict []));
    [reflexivity | reflexivity | left; reflexivity].
Defined.

(** C7 (amended): the summaries field holds the first at most five paragraph
    texts, in document order, that are non-empty and longer than 50
    characters after trimming; when no paragraph qualifies it holds the one
    entry ["No meaningful paragraphs found"] instead.  A text of 50
    characters does not qualify, one of 51 does. *)
Theorem summaries_selection `{Libs} (html base_url : str) (hs : headers)
    (t : float) (r : page_record) :
  smart_scrape html base_url hs t = Some r →
  let sel := summaries_spec (BeautifulSoup html) in
  (sel ≠ [] → summaries r = sel)
  ∧ (sel = [] → summaries r = [lit "No meaningful paragraphs found"])
  ∧ length sel ≤ 5
  ∧ (∀ p, length p = 50 → qualifies p = false)
  ∧ (∀ p, length p = 51 → qualifies p = true).
Proof.
  intros Hr sel. scrape_fields Hr. rewrite paragraphs_spec. fold sel.
  split; [|split; [|split; [|split]]].
  - by destruct sel.
  - by intros ->.
  - apply first_qualifying_length.
  - intros p Hp. unfold qualifies. apply bool_decide_eq_false. lia.
  - intros p Hp. unfold qualifies. apply bool_decide_eq_true.
    split; [|lia]. intros ->. simpl in Hp. lia.
Qed.

(** A page with a paragraph of 50 characters and one of 51: the summaries
    are the second alone. *)
Lemma summaries_selection_witness :
  let sp := [paragraph (replicate 50 97%N); paragraph (replicate 51 98%N)] in
  ∃ r, @smart_scrape (example_libs sp) [] page_url [] 0%float = Some r
       ∧ summaries r = [replicate 51 98%N].
Proof.
  intros sp. eexists. split; [vm_compute; reflexivity|].
  apply (proj1 (@summaries_selection (example_libs sp) [] page_url [] 0%float _
                  ltac:(vm_compute; reflexivity))).
  vm_compute. discriminate.
Defined.

(** As stated, C7 fails on a page without a qualifying paragraph: the field
    is not the empty selection, it holds the sentinel entry. *)
Lemma summaries_selection_counterexample :
  summaries <$> @smart_scrape (example_libs []) [] page_url [] 0%float
  = Some [lit "No meaningful paragraphs found"]
  ∧ summaries_spec [] = [].
Proof. split; vm_compute; reflexivity. Qed.

(** C6 (amended): the title is the sentinel ["Title not found"] when the
    document has no title element, or when its first title element has no
    string of its own (no content, or more than one child) or an empty one;
    it is that string, trimmed, when the trimmed string is not empty; and for
    a title element holding one plain text that is the specification's
    trimmed text content. *)
Theorem title_extraction `{Libs} (html base_url : str) (hs : headers)
    (t : float) (r : page_record) :
  smart_scrape html base_url hs t = Some r →
  let sp := BeautifulSoup html in
  (find (lit "title") any_tag sp = None → title r = lit "Title not found")
  ∧ (∀ tag, find (lit "title") any_tag sp = Some tag →
       string_of tag = None ∨ string_of tag = Some [] →
       title r = lit "Title not found")
  ∧ (∀ tag s, find (lit "title") any_tag sp = Some tag →
       string_of tag = Some s → strip s ≠ [] → title r = strip s)
  ∧ (∀ nm attrs s,
       find (lit "title") any_tag sp = Some (Tag nm attrs [text_node s]) →
       strip s ≠ [] → title r = title_spec sp).
Proof.
  intros Hr sp. scrape_fields Hr. fold sp. unfold scrape_title, title_spec.
  split; [|split; [|split]].
  - by intros ->.
  - intros tag -> [-> | ->]; done.
  - intros tag s -> -> Hs.
    destruct s as [|c s]; [by destruct Hs|done].
  - intros nm attrs s -> Hs. unfold text_node, get_text. simpl.
    rewrite app_nil_r.
    destruct s as [|c s]; [by destruct Hs|].
    by apply truthy_true in Hs as ->.
Qed.

(** A page whose title element holds the text [" Hello "]. *)
Lemma title_extraction_witness :
  let sp := [Tag (lit "title") [] [text_node (lit " Hello ")]] in
  ∃ r, @smart_scrape (example_libs sp) [] page_url [] 0%float = Some r
       ∧ title r = lit "Hello".
Proof.
  intros sp. eexists. split; [vm_compute; reflexivity|].
  apply (proj1 (proj2 (proj2 (@title_extraction (example_libs sp) [] page_url []
                                0%float _ ltac:(vm_compute; reflexivity))))
           (Tag (lit "title") [] [text_node (lit " Hello ")]) (lit " Hello "));
    [reflexivity | reflexivity | vm_compute; discriminate].
Defined.

(** As stated, C6 fails twice.  A title of white space alone gives the empty
    string, not the sentinel; a title with two children has no string of its
    own and gives the sentinel, whatever its text content. *)
Lemma title_extraction_counterexample :
  let blank := [Tag (lit "title") [] [text_node (lit "   ")]] in
  let mixed := [Tag (lit "title") []
                  [text_node (lit "A"); Tag (lit "b") [] [text_node (lit "B")]]] in
  title <$> @smart_scrape (example_libs blank) [] page_url [] 0%float = Some []
  ∧ title_spec blank = lit "Title not found"
  ∧ title <$> @smart_scrape (example_libs mixed) [] page_url [] 0%float
    = Some (lit "Title not found")
  ∧ title_spec mixed = lit "AB".
Proof. repeat split; vm_compute; reflexivity. Qed.

(** ** The fetcher *)

Lemma raise_for_status_None (r : response) :
  raise_for_status r = None ↔ ¬ (400 ≤ status_code r < 600)%Z.
Proof.
  unfold raise_for_status.
  destruct (Z.leb_spec 400 (status_code r)), (Z.ltb_spec (status_code r) 500),
           (Z.leb_spec 500 (status_code r)), (Z.ltb_spec (status_code r) 600);
    simpl; split; (done || lia).
Qed.

Lemma raise_for_status_Some (r : response) (e : RequestException) :
  raise_for_status r = Some e →
  (400 ≤ status_code r < 600)%Z ∧ exc_response e = Some r.
Proof.
  unfold raise_for_status.
  destruct (Z.leb_spec 400 (status_code r)), (Z.ltb_spec (status_code r) 500),
           (Z.leb_spec 500 (status_code r)), (Z.ltb_spec (status_code r) 600);
    simpl; intros [= <-]; simpl; split; (done || lia).
Qed.

(** C5 (amended): whenever [session.get] returns a response or raises a
    [requests.RequestException], [fetch_website_content] returns a value and
    raises nothing.  The value is the body, status code, headers and elapsed
    time when the response's status is not an error; otherwise it is the
    failure value [(None, status, {}, 0)], whose status is the status code
    of the response the exception carries, or ['N/A'] when it carries none.
    The error's description goes to the log, not into the value. *)
Theorem fetch_website_content_value (url : str) (got : get_result) (elapsed : float) :
  ∃ result logged,
    fetch_website_content_call url (Gets got) elapsed = Some (result, logged)
    ∧ ((∃ r, got = Responds r ∧ ¬ (400 ≤ status_code r < 600)%Z
             ∧ result = (Some (text r), Code (status_code r), resp_headers r, elapsed)
             ∧ logged = LogFetched url (status_code r) elapsed)
       ∨ (∃ e, (got = Raises e
                ∨ ∃ r, got = Responds r ∧ (400 ≤ status_code r < 600)%Z
                       ∧ exc_response e = Some r)
               ∧ result = (None, exc_status e, [], 0%float)
               ∧ logged = LogFailed url (exc_status e) (description e)
               ∧ (exc_response e = None → exc_status e = NA)
               ∧ (∀ r, exc_response e = Some r →
                       exc_status e = Code (status_code r)))).
Proof.
  exists (fetch_website_content url got elapsed).1,
         (fetch_website_content url got elapsed).2.
  split; [simpl; by destruct (fetch_website_content url got elapsed)|].
  unfold fetch_website_content.
  assert (Hst : ∀ e, (exc_response e = None → exc_status e = NA)
                     ∧ (∀ r, exc_response e = Some r →
                             exc_status e = Code (status_code r))).
  { intros e. unfold exc_status. split.
    - by intros ->.
    - by intros r ->. }
  destruct got as [r|e].
  - destruct (raise_for_status r) as [e|] eqn:Hraise.
    + right. exists e. apply raise_for_status_Some in Hraise as [Hcode Hresp].
      destruct (Hst e). simpl. eauto 10.
    + left. exists r. apply raise_for_status_None in Hraise. simpl. eauto.
  - right. exists e. destruct (Hst e). simpl. eauto 10.
Qed.

(** As stated, C5 fails twice.  Two failures that differ in their
    description give the same value, so the value carries no description.
    And a redirect whose [Location] is ["http://["] makes [session.get] raise
    the [ValueError] of [urlparse], which the [except] clause lets through:
    the caller receives an exception, not a value. *)
Lemma fetch_website_content_counterexample :
  let timeout := {| description := lit "Read timed out"; exc_response := None |} in
  let dns := {| description := lit "Name or service not known"; exc_response := None |} in
  let net (hop : nat) :=
    Sent (fun _ => Urllib3.Answers (redirect 301 (lit "http://[")) None) in
  fst <$> fetch_website_content_call page_url (Gets (Raises timeout)) 0%float
  = fst <$> fetch_website_content_call page_url (Gets (Raises dns)) 0%float
  ∧ fst <$> fetch_website_content_call page_url (Gets (Raises timeout)) 0%float
    = Some (None, NA, [], 0%float)
  ∧ description timeout ≠ description dns
  ∧ session_outcome <$> @session_get (example_libs []) net
    = Some (RaisesOther (lit "ValueError"))
  ∧ @fetch (example_libs []) page_url net 0%float = Some None.
Proof.
  intros timeout dns net.
  split; [|split; [|split; [|split]]]; try (vm_compute; reflexivity).
  vm_compute. discriminate.
Qed.

(** ** The orchestrator *)

(** C10: when the fetch returns an empty body, whatever the status, [main]
    does not call the extractor: the record handed to the formatter is the
    synthetic one, and the embed keeps the response's status code; with
    status 200 the embed is green, its status line reads ["200 OK"], and its
    title field is ["N/A"]. *)
Theorem empty_body_gets_failed_record `{Libs} (url : str) (r : response)
    (elapsed : float) :
  text r = [] →
  ¬ (400 ≤ status_code r < 600)%Z →
  let fetched := (fetch_website_content url (Responds r) elapsed).1 in
  fetched = (Some [], Code (status_code r), resp_headers r, elapsed)
  ∧ scraped_data_for url fetched = Some failed_record
  ∧ (∀ domain, urlparse_netloc url = Some domain →
       process_url url (Responds r) elapsed
       = Some (send_discord_embed domain failed_record url (Code (status_code r))))
  ∧ (status_code r = 200%Z →
     ∀ domain,
       let e := send_discord_embed domain failed_record url (Code (status_code r)) in
       color e = green
       ∧ fields e !! 0 = Some {| name := lit "Status"; value := lit "200 OK"; inline := true |}
       ∧ fields e !! 5 = Some {| name := lit "Title"; value := lit "N/A"; inline := false |}).
Proof.
  intros Htext Hcode fetched.
  assert (Hf : fetched = (Some [], Code (status_code r), resp_headers r, elapsed)).
  { unfold fetched, fetch_website_content.
    apply raise_for_status_None in Hcode. by rewrite Hcode, Htext. }
  split; [done|]. split; [by rewrite Hf|]. split.
  - intros domain Hdomain. unfold process_url.
    destruct (fetch_website_content url (Responds r) elapsed) as [res lg] eqn:Hfetch.
    simpl in fetched. subst fetched. subst res. simpl.
    by rewrite Hdomain.
  - intros H200 domain e. unfold e. rewrite H200. by vm_compute.
Qed.

(** A 200 response with an empty body. *)
Lemma empty_body_gets_failed_record_witness :
  @process_url (example_libs []) page_url (Responds (answer 200 [])) 0%float
  = Some (@send_discord_embed (example_libs []) (lit "a.com") failed_record
            page_url (Code 200)).
Proof.
  apply (proj1 (proj2 (proj2 (@empty_body_gets_failed_record (example_libs [])
                                page_url (answer 200 []) 0%float eq_refl
                                ltac:(simpl; lia))))).
  reflexivity.
Defined.

(** Every sequence of a record the extractor returns has an entry. *)
Lemma smart_scrape_sequences_nonempty `{Libs} (html base_url : str)
    (hs : headers) (t : float) (r : page_record) :
  smart_scrape html base_url hs t = Some r →
  headlines r ≠ [] ∧ subheadlines r ≠ [] ∧ summaries r ≠ []
  ∧ json_ld r ≠ [] ∧ open_graph r ≠ [] ∧ favicons r ≠ [] ∧ main_images r ≠ []
  ∧ internal_links_sample r ≠ [] ∧ external_links_sample r ≠ [].
Proof.
  intros Hr.
  destruct (smart_scrape_Some _ _ _ _ _ Hr)
    as (cs & fav & imgs & canon & il & el & _ & Hfav & Himgs & _ & _ & ->).
  simpl. unfold find_favicons in Hfav. unfold get_main_images in Himgs.
  destruct (find_favicons_loop _ _ _) as [icons|]; [|done].
  destruct (get_main_images_loop _ _ _ _) as [images|]; [|done].
  simpl in Hfav, Himgs. injection Hfav as <-. injection Himgs as <-.
  unfold extract_json_ld, extract_open_graph.
  repeat split; by apply or_list_nonempty.
Qed.

(** C4 at a failed fetch: the record [main] builds for it reaches the
    formatter with both link samples empty, and the embed's "Internal Links
    Sample" and "External Links Sample" fields have the empty value. *)
Lemma failed_fetch_link_samples_empty `{Libs} (url : str) (e : RequestException)
    (elapsed : float) :
  scraped_data_for url (fetch_website_content url (Raises e) elapsed).1
  = Some failed_record
  ∧ internal_links_sample failed_record = []
  ∧ external_links_sample failed_record = []
  ∧ ∀ domain,
      let sent := send_discord_embed domain failed_record url (exc_status e) in
      fields sent !! 19
      = Some {| name := lit "Internal Links Sample"; value := []; inline := false |}
      ∧ fields sent !! 21
        = Some {| name := lit "External Links Sample"; value := []; inline := false |}.
Proof. repeat split. Qed.

(** ** The retry policy *)

Section RetryFacts.
Import Urllib3.

Lemma increment_None (rs : Retry) :
  (0 ≤ total rs)%Z → increment rs = None → total rs = 0%Z.
Proof.
  unfold increment, is_exhausted. simpl. intros Hpos.
  destruct (Z.ltb_spec (total rs - 1) 0); [lia | done].
Qed.








End RetryFacts.

Section SessionFacts.
Context `{Libs}.





End SessionFacts.

Section RetryOnce.
Import Urllib3.



End RetryOnce.

Section RedirectFacts.
Context `{Libs}.




End RedirectFacts.






(** ** Link classification *)

Section LinkFacts.
Context `{Libs}.

Lemma find_all_elem (nm : str) (p : node → bool) (sp : soup) (n : node) :
  n ∈ find_all nm p sp ↔
  n ∈ soup_descendants sp ∧ is_tag nm n = true ∧ p n = true.
Proof.
  unfold find_all. rewrite list_elem_of_filter.
  rewrite <- andb_true_iff, Is_true_true. tauto.
Qed.

Lemma has_attr_Some (key : str) (n : node) :
  has_attr key n = true → is_Some (get n key).
Proof. unfold has_attr. destruct (get n key); [eauto | done]. Qed.

Lemma kept_of_cons_None (a : node) (anchors : list node) :
  get a (lit "href") = None → kept_of (a :: anchors) = kept_of anchors.
Proof. unfold kept_of. simpl. by intros ->. Qed.

Lemma kept_of_cons_skipped (a : node) (raw : str) (anchors : list node) :
  get a (lit "href") = Some raw → skipped_href (strip raw) = true →
  kept_of (a :: anchors) = kept_of anchors.
Proof.
  unfold kept_of. simpl. intros -> Hskip. simpl.
  rewrite filter_cons. rewrite decide_False; [done | congruence].
Qed.

Lemma kept_of_cons_kept (a : node) (raw : str) (anchors : list node) :
  get a (lit "href") = Some raw → skipped_href (strip raw) = false →
  kept_of (a :: anchors) = strip raw :: kept_of anchors.
Proof.
  unfold kept_of. simpl. intros -> Hskip. simpl.
  rewrite filter_cons. by rewrite decide_True.
Qed.

(** The loop of [count_links]: it returns when every kept href resolves;
    [internal] gains the resolved URLs whose host is the base's, [external]
    the others. *)
Lemma count_links_loop_spec (base_url base_domain : str) (anchors : list node) :
  ∀ internal external : gset str,
    (∀ a, a ∈ anchors → is_Some (get a (lit "href"))) →
    match count_links_loop base_url base_domain anchors internal external with
    | Some (internal', external') =>
        (∀ h, h ∈ kept_of anchors → resolves base_url h)
        ∧ (∀ u, u ∈ internal' ↔
             u ∈ internal
             ∨ ∃ h nl, h ∈ kept_of anchors ∧ urljoin base_url h = Some u
                       ∧ urlparse_netloc u = Some nl ∧ lower nl = base_domain)
        ∧ (∀ u, u ∈ external' ↔
             u ∈ external
             ∨ ∃ h nl, h ∈ kept_of anchors ∧ urljoin base_url h = Some u
                       ∧ urlparse_netloc u = Some nl ∧ lower nl ≠ base_domain)
    | None => ∃ h, h ∈ kept_of anchors ∧ ¬ resolves base_url h
    end.
Proof.
  induction anchors as [|a anchors IH]; intros internal external Hhref.
  - simpl. split; [|split].
    + intros h Hh. by apply elem_of_nil in Hh.
    + intros u. split; [by left|]. intros [?|(h & nl & Hh & _)]; [done|].
      by apply elem_of_nil in Hh.
    + intros u. split; [by left|]. intros [?|(h & nl & Hh & _)]; [done|].
      by apply elem_of_nil in Hh.
  - assert (Hrest : ∀ a', a' ∈ anchors → is_Some (get a' (lit "href"))).
    { intros a' Ha'. apply Hhref. by right. }
    destruct (Hhref a ltac:(left)) as [raw Hraw].
    simpl. rewrite Hraw. simpl.
    destruct (skipped_href (strip raw)) eqn:Hskip.
    { rewrite (kept_of_cons_skipped a raw anchors Hraw Hskip). by apply IH. }
    rewrite (kept_of_cons_kept a raw anchors Hraw Hskip).
    destruct (urljoin base_url (strip raw)) as [full|] eqn:Hjoin; simpl.
    2:{ exists (strip raw). split; [by left|].
        intros (u & nl & Hu & _). congruence. }
    destruct (urlparse_netloc full) as [nl|] eqn:Hnl; simpl.
    2:{ exists (strip raw). split; [by left|].
        intros (u & nl & Hu & Hnl'). congruence. }
    destruct (decide (lower nl = base_domain)) as [Hdom|Hdom].
    + specialize (IH ({[full]} ∪ internal) external Hrest).
      destruct (count_links_loop _ _ _ _ _) as [[internal' external']|].
      * destruct IH as (Hres & Hint & Hext). split; [|split].
        -- intros h [->|Hh]%elem_of_cons; [by exists full, nl | by apply Hres].
        -- intros u. rewrite Hint, elem_of_union, elem_of_singleton. split.
           ++ intros [[->|?]|(h & nl' & Hh & ?)]; [|by left|].
              ** right. exists (strip raw), nl. split; [by left|done].
              ** right. exists h, nl'. split; [by right|done].
           ++ intros [?|(h & nl' & [->|Hh]%elem_of_cons & Hu & Hrest')].
              ** left. by right.
              ** left. left. congruence.
              ** right. by exists h, nl'.
        -- intros u. rewrite Hext. split.
           ++ intros [?|(h & nl' & Hh & ?)]; [by left|].
              right. exists h, nl'. split; [by right|done].
           ++ intros [?|(h & nl' & [->|Hh]%elem_of_cons & Hu & Hnl' & Hne)].
              ** by left.
              ** congruence.
              ** right. by exists h, nl'.
      * destruct IH as (h & Hh & Hno). exists h. split; [by right|done].
    + specialize (IH internal ({[full]} ∪ external) Hrest).
      destruct (count_links_loop _ _ _ _ _) as [[internal' external']|].
      * destruct IH as (Hres & Hint & Hext). split; [|split].
        -- intros h [->|Hh]%elem_of_cons; [by exists full, nl | by apply Hres].
        -- intros u. rewrite Hint. split.
           ++ intros [?|(h & nl' & Hh & ?)]; [by left|].
              right. exists h, nl'. split; [by right|done].
           ++ intros [?|(h & nl' & [->|Hh]%elem_of_cons & Hu & Hnl' & Heq)].
              ** by left.
              ** congruence.
              ** right. by exists h, nl'.
        -- intros u. rewrite Hext, elem_of_union, elem_of_singleton. split.
           ++ intros [[->|?]|(h & nl' & Hh & ?)]; [|by left|].
              ** right. exists (strip raw), nl. split; [by left|done].
              ** right. exists h, nl'. split; [by right|done].
           ++ intros [?|(h & nl' & [->|Hh]%elem_of_cons & Hu & Hrest')].
              ** left. by right.
              ** left. left. congruence.
              ** right. by exists h, nl'.
      * destruct IH as (h & Hh & Hno). exists h. split; [by right|done].
Qed.

Lemma anchors_have_href (sp : soup) (a : node) :
  a ∈ find_all (lit "a") (has_attr (lit "href")) sp →
  is_Some (get a (lit "href")).
Proof. intros (_ & _ & Hhas)%find_all_elem. by apply has_attr_Some. Qed.

(** One kept href that [urljoin] rejects, and [count_links] raises. *)
Lemma count_links_raises (sp : soup) (base_url h : str) :
  h ∈ kept_hrefs sp → urljoin base_url h = None →
  count_links sp base_url = None.
Proof.
  intros Hh Hjoin. unfold count_links.
  destruct (urlparse_netloc base_url) as [bnl|]; [|done]. simpl.
  pose proof (count_links_loop_spec base_url (lower bnl)
                (find_all (lit "a") (has_attr (lit "href")) sp) ∅ ∅
                (anchors_have_href sp)) as Hloop.
  destruct (count_links_loop _ _ _ _ _) as [[iset eset]|]; [|done].
  destruct Hloop as (Hres & _). destruct (Hres h Hh) as (u & nl & Hu & _).
  congruence.
Qed.

End LinkFacts.

(** C2 (amended): [count_links] returns exactly when [urllib.parse] raises
    neither on the base URL nor on a kept href.  The kept hrefs are those of
    every anchor that has an [href] attribute, stripped, unless the stripped
    value starts with [#] or, in lower case, with [javascript:]; an empty
    href is kept.  The two lists returned have no duplicates and no common
    member, together they hold exactly the resolutions of the kept hrefs, and
    a member is internal exactly when its netloc equals the base URL's, case
    ignored. *)
Theorem count_links_partition `{Libs} (sp : soup) (base_url : str) :
  (is_Some (count_links sp base_url) ↔
     is_Some (urlparse_netloc base_url)
     ∧ ∀ h, h ∈ kept_hrefs sp → resolves base_url h)
  ∧ ∀ internal external,
      count_links sp base_url = Some (internal, external) →
      NoDup internal ∧ NoDup external
      ∧ (∀ u, u ∈ internal → u ∉ external)
      ∧ (∀ u, u ∈ internal ∨ u ∈ external ↔
              ∃ h, h ∈ kept_hrefs sp ∧ urljoin base_url h = Some u)
      ∧ (∀ u, u ∈ internal ∨ u ∈ external →
              (u ∈ internal ↔
               lower <$> urlparse_netloc u = lower <$> urlparse_netloc base_url)).
Proof.
  unfold count_links, kept_hrefs.
  set (anchors := find_all (lit "a") (has_attr (lit "href")) sp).
  destruct (urlparse_netloc base_url) as [bnl|] eqn:Hbase; simpl.
  2:{ split; [|done]. split; [by intros [? ?] | by intros [[? ?] _]]. }
  pose proof (count_links_loop_spec base_url (lower bnl) anchors ∅ ∅
                (anchors_have_href sp)) as Hloop.
  destruct (count_links_loop _ _ _ _ _) as [[iset eset]|]; simpl.
  - destruct Hloop as (Hres & Hint & Hext). split; [by eauto|].
    intros internal external [= <- <-].
    split; [apply NoDup_elements|]. split; [apply NoDup_elements|].
    split; [|split].
    + intros u Hi%elem_of_elements He%elem_of_elements.
      apply Hint in Hi as [Hi|(h & nl & _ & _ & Hnl & Heq)]; [set_solver|].
      apply Hext in He as [He|(h' & nl' & _ & _ & Hnl' & Hne)]; [set_solver|].
      congruence.
    + intros u. rewrite !elem_of_elements, Hint, Hext. split.
      * intros [[Hu|(h & nl & ? & ? & _)]|[Hu|(h & nl & ? & ? & _)]];
          [by apply elem_of_empty in Hu | eauto
          |by apply elem_of_empty in Hu | eauto].
      * intros (h & Hh & Hu). destruct (Hres h Hh) as (u' & nl & Hu' & Hnl).
        assert (u' = u) as -> by congruence.
        destruct (decide (lower nl = lower bnl)); [left | right];
          right; by exists h, nl.
    + intros u Hu. rewrite !elem_of_elements in Hu. rewrite elem_of_elements, Hint.
      split.
      * intros [?|(h & nl & _ & _ & -> & <-)]; [set_solver|done].
      * intros Heq. destruct Hu as [Hu|Hu]; [by apply Hint in Hu|].
        apply Hext in Hu as [?|(h & nl & Hh & Hu & Hnl & Hne)]; [set_solver|].
        rewrite Hnl in Heq. simpl in Heq. congruence.
  - destruct Hloop as (h & Hh & Hno). split; [|done].
    split; [by intros [? ?] | intros [_ Hall]; by destruct Hno; apply Hall].
Qed.

(** The page of the specification's example: links to the same host, to the
    same host in capitals, to another host, a fragment and a script link. *)
Lemma count_links_partition_witness :
  let sp := [anchor (lit "http://a.com/y"); anchor (lit "https://A.COM/z");
             anchor (lit "http://b.com/w"); anchor (lit "#frag");
             anchor (lit "javascript:void(0)")] in
  ∃ internal external,
    @count_links (example_libs sp) sp page_url = Some (internal, external)
    ∧ external = [lit "http://b.com/w"]
    ∧ lit "http://a.com/y" ∈ internal ∧ lit "https://A.COM/z" ∈ internal
    ∧ length internal = 2
    ∧ ∀ u, u ∈ internal → u ∉ external.
Proof.
  intros sp. eexists _, _. split; [vm_compute; reflexivity|].
  split; [reflexivity|].
  split; [by vm_compute; repeat constructor|].
  split; [by vm_compute; repeat constructor|].
  split; [reflexivity|].
  apply (proj2 (@count_links_partition (example_libs sp) sp page_url) _ _
           ltac:(vm_compute; reflexivity)).
Defined.

(** As stated, C2 fails on an anchor whose href is empty: the href is not
    among those the specification covers, yet it is resolved, to the base
    URL itself, and counted as an internal link. *)
Lemma count_links_partition_counterexample :
  let sp := [anchor []] in
  @count_links (example_libs sp) sp page_url = Some ([page_url], [])
  ∧ @covered_hrefs_spec (example_libs sp) sp = [].
Proof. split; vm_compute; reflexivity. Qed.

(** ** Totality of the extractor *)

Section TotalityFacts.
Context `{Libs}.

Lemma find_all_absent (nm : str) (p : node → bool) (sp : soup) :
  absent nm sp → find_all nm p sp = [].
Proof.
  intros Habs. apply elem_of_nil_inv. intros n (Hn & Htag & _)%find_all_elem.
  rewrite (Habs n Hn) in Htag. done.
Qed.

Lemma find_absent (nm : str) (p : node → bool) (sp : soup) :
  absent nm sp → find nm p sp = None.
Proof. intros Habs. unfold find. by rewrite find_all_absent. Qed.

Lemma headers_get_absent (hs : headers) (key dflt : str) :
  (∀ k v, (k, v) ∈ hs → lower k ≠ lower key) → headers_get hs key dflt = dflt.
Proof.
  induction hs as [|[k v] hs IH]; intros Hno; simpl; [done|].
  rewrite decide_False.
  - apply IH. intros k' v' Hin. apply (Hno k' v'). by right.
  - apply (Hno k v). by left.
Qed.

Lemma resolves_urljoin (base_url h : str) :
  resolves base_url h → is_Some (urljoin base_url h).
Proof. intros (u & nl & -> & _). eauto. Qed.

Lemma scrape_charset_returns (sp : soup) : is_Some (scrape_charset sp).
Proof.
  unfold scrape_charset.
  destruct (find (lit "meta") (has_attr (lit "charset")) sp); [eauto|].
  destruct (find (lit "meta") _ sp) as [ct|]; [|eauto].
  unfold get_default.
  destruct (get ct (lit "content")) as [c|]; simpl.
  - destruct (contains _ c); simpl; eauto.
  - eauto.
Qed.

Lemma find_favicons_loop_returns (base_url : str) (links : list node) :
  ∀ icons,
    (∀ l href, l ∈ links → get l (lit "href") = Some href →
               is_Some (urljoin base_url href)) →
    is_Some (find_favicons_loop base_url links icons).
Proof.
  induction links as [|l links IH]; intros icons Hres; simpl; [eauto|].
  assert (Hrest : ∀ l' href, l' ∈ links → get l' (lit "href") = Some href →
                             is_Some (urljoin base_url href)).
  { intros l' href Hin. apply Hres. by right. }
  destruct (get l (lit "href")) as [href|] eqn:Hhref; [|by apply IH].
  destruct (truthy href); [|by apply IH].
  destruct (Hres l href ltac:(left) Hhref) as [u ->]. simpl. by apply IH.
Qed.

Lemma get_main_images_loop_returns (base_url : str) (n : nat) (imgs : list node) :
  ∀ images,
    (∀ i src, i ∈ imgs → get i (lit "src") = Some src →
              is_Some (urljoin base_url src)) →
    is_Some (get_main_images_loop base_url n imgs images).
Proof.
  induction imgs as [|i imgs IH]; intros images Hres; simpl; [eauto|].
  assert (Hrest : ∀ i' src, i' ∈ imgs → get i' (lit "src") = Some src →
                            is_Some (urljoin base_url src)).
  { intros i' src Hin. apply Hres. by right. }
  assert (Hnext : ∀ images', is_Some
            (if Nat.leb n (length images') then Some images'
             else get_main_images_loop base_url n imgs images')).
  { intros images'. destruct (Nat.leb n (length images')); [eauto | by apply IH]. }
  destruct (get i (lit "src")) as [src|] eqn:Hsrc; simpl; [|apply Hnext].
  destruct (truthy src); simpl; [|apply Hnext].
  destruct (Hres i src ltac:(left) Hsrc) as [u ->]. simpl. apply Hnext.
Qed.

Lemma kept_of_elem (anchors : list node) (h : str) :
  h ∈ kept_of anchors →
  ∃ a raw, a ∈ anchors ∧ get a (lit "href") = Some raw ∧ h = strip raw.
Proof.
  unfold kept_of. intros [_ Hh]%list_elem_of_filter.
  apply list_elem_of_omap in Hh as (a & Ha & Hget).
  destruct (get a (lit "href")) as [raw|] eqn:Hraw; [|done].
  simpl in Hget. injection Hget as <-. eauto.
Qed.

Lemma count_links_returns (sp : soup) (base_url : str) :
  is_Some (urlparse_netloc base_url) →
  (∀ h, h ∈ kept_hrefs sp → resolves base_url h) →
  is_Some (count_links sp base_url).
Proof.
  intros [bnl Hbase] Hall. unfold count_links. rewrite Hbase. simpl.
  pose proof (count_links_loop_spec base_url (lower bnl)
                (find_all (lit "a") (has_attr (lit "href")) sp) ∅ ∅
                (anchors_have_href sp)) as Hloop.
  destruct (count_links_loop _ _ _ _ _) as [[iset eset]|]; simpl; [eauto|].
  destruct Hloop as (h & Hh & Hno). destruct Hno. by apply Hall.
Qed.

Lemma count_links_no_anchor (sp : soup) (base_url : str) :
  is_Some (urlparse_netloc base_url) →
  find_all (lit "a") (has_attr (lit "href")) sp = [] →
  count_links sp base_url = Some ([], []).
Proof.
  intros [bnl Hbase] Hnone. unfold count_links. rewrite Hbase, Hnone. simpl.
  by rewrite elements_empty.
Qed.

(** Under [resolvable], each helper that resolves URLs returns. *)
Lemma helpers_return (sp : soup) (base_url : str) :
  resolvable sp base_url →
  is_Some (find_favicons sp base_url)
  ∧ is_Some (get_main_images sp base_url)
  ∧ is_Some (get_canonical_url sp base_url)
  ∧ is_Some (count_links sp base_url).
Proof.
  intros [Hbase Hres]. split; [|split; [|split]].
  - unfold find_favicons.
    destruct (find_favicons_loop_returns base_url
                (find_all (lit "link") (multi_matches icon_rel (lit "rel")) sp) [])
      as [icons ->]; [|simpl; eauto].
    intros l href (Hl & _)%find_all_elem Hhref.
    apply resolves_urljoin.
    by destruct (Hres l (lit "href") href Hl ltac:(by left) Hhref).
  - unfold get_main_images.
    destruct (get_main_images_loop_returns base_url 5
                (find_all (lit "img") (has_attr (lit "src")) sp) [])
      as [images ->]; [|simpl; eauto].
    intros i src (Hi & _)%find_all_elem Hsrc.
    apply resolves_urljoin.
    by destruct (Hres i (lit "src") src Hi ltac:(by right) Hsrc).
  - unfold get_canonical_url, find.
    destruct (find_all (lit "link") _ sp) as [|link rest] eqn:Hfind; simpl; [eauto|].
    destruct (get link (lit "href")) as [href|] eqn:Hhref; [|eauto].
    destruct (truthy href); [|eauto].
    assert (Hin : link ∈ find_all (lit "link") (multi_is (lit "canonical") (lit "rel")) sp)
      by (rewrite Hfind; left).
    apply find_all_elem in Hin as (Hin & _).
    apply resolves_urljoin.
    by destruct (Hres link (lit "href") href Hin ltac:(by left) Hhref).
  - apply count_links_returns; [done|].
    intros h (a & raw & Ha & Hraw & ->)%kept_of_elem.
    apply find_all_elem in Ha as (Ha & _).
    by destruct (Hres a (lit "href") raw Ha ltac:(by left) Hraw).
Qed.

End TotalityFacts.

(** When the parser accepts the markup and [urllib.parse] raises neither on
    the base URL nor on an [href] or [src] value of the document,
    [smart_scrape] returns a record: every sequence in it has an entry, the
    load time is the one passed in, and a field holds its sentinel when the
    document has no tag of the field's name, or the response no header of
    it. *)
Lemma smart_scrape_returns_record `{Libs} (html base_url : str) (hs : headers)
    (t : float) :
  let sp := BeautifulSoup html in
  rejects_markup html = false →
  resolvable sp base_url →
  ∃ r, smart_scrape html base_url hs t = Some r
    ∧ (headlines r ≠ [] ∧ subheadlines r ≠ [] ∧ summaries r ≠ []
       ∧ json_ld r ≠ [] ∧ open_graph r ≠ [] ∧ favicons r ≠ []
       ∧ main_images r ≠ [] ∧ internal_links_sample r ≠ []
       ∧ external_links_sample r ≠ [])
    ∧ load_time r = t
    ∧ (absent (lit "title") sp → title r = lit "Title not found")
    ∧ (absent (lit "meta") sp →
         meta_description r = lit "Meta description not found"
         ∧ meta_keywords r = lit "Meta keywords not found"
         ∧ charset r = lit "Unknown"
         ∧ open_graph r = [(lit "None", lit "Not found")]
         ∧ robots_meta r = lit "Not found")
    ∧ (absent (lit "h1") sp → headlines r = [lit "No H1 tags found"])
    ∧ (absent (lit "h2") sp → subheadlines r = [lit "No H2 tags found"])
    ∧ (absent (lit "p") sp → summaries r = [lit "No meaningful paragraphs found"])
    ∧ (absent (lit "html") sp → lang r = lit "Unknown")
    ∧ (absent (lit "script") sp → json_ld r = [JStr (lit "Not found")])
    ∧ (absent (lit "link") sp →
         favicons r = [lit "Not found"] ∧ canonical_url r = lit "Not found")
    ∧ (absent (lit "img") sp → main_images r = [lit "Not found"])
    ∧ (absent (lit "a") sp →
         internal_links_count r = 0 ∧ external_links_count r = 0
         ∧ internal_links_sample r = [lit "None"]
         ∧ external_links_sample r = [lit "None"])
    ∧ (∀ key, (∀ k v, (k, v) ∈ hs → lower k ≠ lower key) →
         (key = lit "Last-Modified" → last_modified r = lit "Not found")
         ∧ (key = lit "Content-Length" → content_length r = lit "Unknown")
         ∧ (key = lit "Server" → server r = lit "Unknown")).
Proof.
  intros sp Hparsed Hres.
  destruct (helpers_return sp base_url Hres) as (Hfav & Himgs & Hcanon & Hlinks).
  destruct (smart_scrape_returns html base_url hs t Hparsed
              (scrape_charset_returns sp)
              Hfav Himgs Hcanon Hlinks) as [r Hr].
  exists r. split; [done|].
  split; [by apply (smart_scrape_sequences_nonempty html base_url hs t)|].
  destruct (smart_scrape_Some _ _ _ _ _ Hr)
    as (cs & fav & imgs & canon & il & el & Hcs & Hfav' & Himgs' & Hcanon' & Hlinks' & ->).
  fold sp in Hcs, Hfav', Himgs', Hcanon', Hlinks'. fold sp. simpl.
  split; [done|].
  split; [intros Habs; unfold scrape_title; by rewrite find_absent|].
  split.
  { intros Habs. unfold scrape_meta, get_robots_meta, extract_open_graph.
    unfold scrape_charset in Hcs.
    rewrite !find_absent in Hcs by done. injection Hcs as <-.
    rewrite !find_absent by done. by rewrite find_all_absent. }
  split; [intros Habs; unfold heading_texts; by rewrite find_all_absent|].
  split; [intros Habs; unfold heading_texts; by rewrite find_all_absent|].
  split; [intros Habs; unfold paragraphs; by rewrite find_all_absent|].
  split; [intros Habs; unfold scrape_lang; by rewrite find_absent|].
  split; [intros Habs; unfold extract_json_ld; by rewrite find_all_absent|].
  split.
  { intros Habs. unfold find_favicons, get_canonical_url in *.
    rewrite find_all_absent in Hfav' by done.
    rewrite find_absent in Hcanon' by done.
    simpl in Hfav'. by injection Hfav' as <-; injection Hcanon' as <-. }
  split.
  { intros Habs. unfold get_main_images in Himgs'.
    rewrite find_all_absent in Himgs' by done.
    simpl in Himgs'. by injection Himgs' as <-. }
  split.
  { intros Habs.
    rewrite (count_links_no_anchor sp base_url (proj1 Hres)
               (find_all_absent _ _ _ Habs)) in Hlinks'.
    by injection Hlinks' as <- <-. }
  intros key Hkey. repeat split; intros ->; by apply headers_get_absent.
Qed.

(** C1: [smart_scrape] is not total.  It raises when the parser rejects the
    markup, and it raises when [urljoin] raises on the [href] of one anchor
    that [count_links] keeps: the call is not guarded, and the exception
    takes the whole record with it, the fields already extracted
    included. *)
Theorem smart_scrape_aborts `{Libs} (html base_url : str) (hs : headers)
    (t : float) :
  rejects_markup html = true
  ∨ (∃ h, h ∈ kept_hrefs (BeautifulSoup html) ∧ urljoin base_url h = None) →
  smart_scrape html base_url hs t = None.
Proof.
  intros [Hrejected | (h & Hh & Hjoin)]; unfold smart_scrape.
  - by rewrite Hrejected.
  - destruct (rejects_markup html); [done|].
    rewrite (count_links_raises _ base_url h Hh Hjoin).
    destruct (scrape_charset _) as [cs|]; [|done].
    destruct (find_favicons _ _) as [fav|]; [|done].
    destruct (get_main_images _ _) as [imgs|]; [|done].
    by destruct (get_canonical_url _ _) as [canon|].
Qed.

(** A page whose only link is ["http://["]: [urljoin] raises [ValueError] on
    it and no record is returned, though every other field of the page can
    be extracted, as the same page without the link shows. *)
Lemma smart_scrape_aborts_witness :
  let sp := [paragraph (lit "text"); anchor (lit "http://[")] in
  @smart_scrape (example_libs sp) [] page_url [] 0%float = None
  ∧ @urljoin (example_libs sp) page_url (lit "http://[") = None
  ∧ is_Some (@smart_scrape (example_libs [paragraph (lit "text")]) []
               page_url [] 0%float).
Proof.
  intros sp. split; [|split; [reflexivity | by eexists; vm_compute]].
  apply (@smart_scrape_aborts (example_libs sp) [] page_url [] 0%float).
  right. exists (lit "http://["). split; [|reflexivity].
  vm_compute. left.
Defined.

(** * Further properties of the program *)

(** ** Escaping and truncation *)

Lemma escape_markdown_cons (c : char) (s : str) :
  escape_markdown (c :: s)
  = (if special c then [92%N; c] else [c]) ++ escape_markdown s.
Proof. done. Qed.

Lemma special_backslash : special 92%N = true.
Proof. done. Qed.

Lemma unescape_escape (s : str) : unescape_markdown (escape_markdown s) = s.
Proof.
  induction s as [|c s IH]; [done|].
  rewrite escape_markdown_cons. destruct (special c) eqn:Hc; simpl.
  - by rewrite IH.
  - rewrite decide_False; [by rewrite IH|].
    intros ->. by rewrite special_backslash in Hc.
Qed.

(** X1: [escape_markdown] loses nothing: dropping each escaping backslash
    gives the text back, so two different texts are never escaped to the
    same one. *)
Theorem escape_markdown_round_trip (s : str) :
  unescape_markdown (escape_markdown s) = s
  ∧ ∀ s', escape_markdown s = escape_markdown s' → s = s'.
Proof.
  split; [apply unescape_escape|].
  intros s' Heq. rewrite <- (unescape_escape s), <- (unescape_escape s').
  by rewrite Heq.
Qed.

Lemma escape_markdown_length (s : str) :
  length (escape_markdown s)
  = length s + length (filter (fun c => special c = true) s).
Proof.
  unfold str in *. induction s as [|c s IH]; [done|].
  rewrite escape_markdown_cons, filter_cons.
  destruct (special c) eqn:Hc.
  - rewrite decide_True by done. simpl. rewrite IH. lia.
  - rewrite decide_False by done. simpl. rewrite IH. lia.
Qed.

(** X2: [escape_markdown] lengthens a text by one character for each of
    [\ * _ ` ~ | >] in it, so at most doubles it, and leaves a text
    unchanged exactly when it holds none of them. *)
Theorem escape_markdown_growth (s : str) :
  length (escape_markdown s)
  = length s + length (filter (fun c => special c = true) s)
  ∧ length s ≤ length (escape_markdown s) ≤ 2 * length s
  ∧ (escape_markdown s = s ↔ ∀ c, c ∈ s → special c = false).
Proof.
  split; [apply escape_markdown_length|]. unfold str in *. split.
  - rewrite escape_markdown_length. unfold str.
    pose proof (length_filter (fun c => special c = true) s). lia.
  - split.
    + intros Heq c Hc.
      pose proof (escape_markdown_length s) as Hlen. rewrite Heq in Hlen.
      unfold str in *.
      assert (Hnil : filter (fun c => special c = true) s = [])
        by (apply length_zero_iff_nil; lia).
      destruct (special c) eqn:Hsp; [|done].
      assert (Hin : c ∈ filter (fun c => special c = true) s)
        by by apply list_elem_of_filter.
      rewrite Hnil in Hin. by apply elem_of_nil in Hin.
    + induction s as [|c s IH]; intros Hno; [done|].
      rewrite escape_markdown_cons, (Hno c ltac:(left)). simpl. f_equal.
      apply IH. intros c' Hc'. apply Hno. by right.
Qed.

Lemma safe_truncate_to_length (text : str) (max_len : nat) :
  length (safe_truncate_to text max_len) ≤ max_len + 1.
Proof.
  unfold safe_truncate_to. destruct (Nat.ltb_spec max_len (length text)).
  - rewrite length_app, length_take. simpl. lia.
  - lia.
Qed.

(** X3: for every limit, the text [safe_truncate] returns is at most one
    character longer than the limit, agrees with the input on the first
    [max_len] characters, and truncating it again changes nothing. *)
Theorem safe_truncate_bounded_idempotent (text : str) (max_len : nat) :
  length (safe_truncate_to text max_len) ≤ max_len + 1
  ∧ take max_len (safe_truncate_to text max_len) = take max_len text
  ∧ safe_truncate_to (safe_truncate_to text max_len) max_len
    = safe_truncate_to text max_len.
Proof.
  split; [apply safe_truncate_to_length|].
  unfold safe_truncate_to. destruct (Nat.ltb_spec max_len (length text)) as [Hlt|Hle].
  - assert (Htake : take max_len (take max_len text ++ ellipsis) = take max_len text).
    { rewrite take_app_le by (rewrite length_take; lia).
      rewrite take_take. f_equal. lia. }
    split; [done|].
    destruct (Nat.ltb_spec max_len (length (take max_len text ++ ellipsis))) as [_|Hle'].
    + by rewrite Htake.
    + rewrite length_app, length_take in Hle'. simpl in Hle'. lia.
  - split; [done|].
    destruct (Nat.ltb_spec max_len (length text)); [lia | done].
Qed.

(** ** Favicons, images and the caps on sequences *)

Section SequenceFacts.
Context `{Libs}.
Local Arguments Nat.leb : simpl never.
Local Arguments Nat.sub : simpl never.
Local Arguments Nat.min : simpl never.

Lemma attr_values_cons_None (key : str) (tag : node) (tags : list node) :
  get tag key = None → attr_values key (tag :: tags) = attr_values key tags.
Proof. unfold attr_values. simpl. by intros ->. Qed.

Lemma attr_values_cons_Some (key v : str) (tag : node) (tags : list node) :
  get tag key = Some v →
  attr_values key (tag :: tags)
  = if truthy v then v :: attr_values key tags else attr_values key tags.
Proof.
  unfold attr_values. simpl. intros ->. rewrite filter_cons.
  destruct (truthy v); [by rewrite decide_True | by rewrite decide_False].
Qed.

(** The loop of [find_favicons] resolves every non-empty href, in order. *)
Lemma find_favicons_loop_mapM (base_url : str) (links : list node) :
  ∀ icons,
    find_favicons_loop base_url links icons
    = (icons ++.) <$> mapM (urljoin base_url) (attr_values (lit "href") links).
Proof.
  induction links as [|link links IH]; intros icons; simpl.
  - by rewrite app_nil_r.
  - destruct (get link (lit "href")) as [href|] eqn:Hhref.
    + rewrite (attr_values_cons_Some _ href) by done.
      destruct (truthy href); [|apply IH]. simpl.
      destruct (urljoin base_url href) as [u|]; simpl; [|done].
      rewrite IH. destruct (mapM _ _) as [us|]; simpl; [|done].
      by rewrite <- app_assoc.
    + rewrite attr_values_cons_None by done. apply IH.
Qed.

(** The loop of [get_main_images] resolves the first non-empty srcs only,
    as many as there is room for. *)
Lemma get_main_images_loop_mapM (base_url : str) (m : nat) (imgs : list node) :
  ∀ images,
    length images ≤ m →
    get_main_images_loop base_url (S m) imgs images
    = (images ++.) <$> mapM (urljoin base_url)
                         (take (S m - length images) (attr_values (lit "src") imgs)).
Proof.
  induction imgs as [|img imgs IH]; intros images Hlen; simpl.
  - unfold attr_values. simpl. rewrite filter_nil, take_nil. simpl.
    by rewrite app_nil_r.
  - assert (Hroom : Nat.leb (S m) (length images) = false)
      by (apply Nat.leb_gt; lia).
    destruct (get img (lit "src")) as [src|] eqn:Hsrc.
    2:{ rewrite attr_values_cons_None by done. simpl. rewrite Hroom. by apply IH. }
    rewrite (attr_values_cons_Some _ src) by done.
    destruct (truthy src); simpl.
    2:{ rewrite Hroom. by apply IH. }
    replace (S m - length images) with (S (m - length images)) by lia. simpl.
    destruct (urljoin base_url src) as [u|]; simpl; [|done].
    rewrite length_app. simpl.
    destruct (Nat.leb_spec (S m) (length images + 1)) as [Hfull|Hmore].
    + replace (m - length images) with 0 by lia. by rewrite take_0.
    + rewrite IH by (rewrite length_app; simpl; lia).
      rewrite length_app. simpl.
      replace (S m - (length images + 1)) with (m - length images) by lia.
      destruct (mapM _ _) as [us|]; simpl; [|done].
      by rewrite <- app_assoc.
Qed.

Lemma mapM_length_le {A B} (f : A → option B) (l : list A) (k : list B) :
  mapM f l = Some k → length k = length l.
Proof. intros Hk. by apply length_mapM in Hk. Qed.

Lemma or_list_take_length {A} (n : nat) (l d : list A) :
  length d = 1 → 1 ≤ n → 1 ≤ length (or_list (take n l) d) ≤ n.
Proof.
  intros Hd Hn. destruct (take n l) as [|x k] eqn:Htake; simpl; [lia|].
  assert (Hlen : length (take n l) ≤ n) by (rewrite length_take; lia).
  rewrite Htake in Hlen. simpl in Hlen. lia.
Qed.

Lemma get_main_images_cap (sp : soup) (base_url : str) (images : list str) :
  get_main_images sp base_url = Some images → 1 ≤ length images ≤ 5.
Proof.
  unfold get_main_images. rewrite get_main_images_loop_mapM by (simpl; lia).
  simpl. rewrite Nat.sub_0_r || idtac.
  destruct (mapM _ _) as [us|] eqn:Hus; simpl; [|done].
  intros [= <-]. apply mapM_length_le in Hus.
  rewrite length_take in Hus.
  destruct us as [|u us]; simpl in Hus |- *; lia.
Qed.

Lemma count_links_NoDup (sp : soup) (base_url : str) (il el : list str) :
  count_links sp base_url = Some (il, el) → NoDup il ∧ NoDup el.
Proof.
  unfold count_links. destruct (urlparse_netloc base_url); simpl; [|done].
  destruct (count_links_loop _ _ _ _ _) as [[iset eset]|]; simpl; [|done].
  intros [= <- <-]. split; apply NoDup_elements.
Qed.

End SequenceFacts.

(** X4: in a record [smart_scrape] returns, the headlines, subheadlines,
    summaries, main images and both link samples hold between one and five
    entries, however many elements the page has. *)
Theorem sequence_caps `{Libs} (html base_url : str) (hs : headers) (t : float)
    (r : page_record) :
  smart_scrape html base_url hs t = Some r →
  1 ≤ length (headlines r) ≤ 5
  ∧ 1 ≤ length (subheadlines r) ≤ 5
  ∧ 1 ≤ length (summaries r) ≤ 5
  ∧ 1 ≤ length (main_images r) ≤ 5
  ∧ 1 ≤ length (internal_links_sample r) ≤ 5
  ∧ 1 ≤ length (external_links_sample r) ≤ 5.
Proof.
  intros Hr.
  destruct (smart_scrape_Some _ _ _ _ _ Hr)
    as (cs & fav & imgs & canon & il & el & _ & _ & Himgs & _ & _ & ->).
  simpl. apply get_main_images_cap in Himgs.
  repeat split; try (apply or_list_take_length; [done | lia]); lia.
Qed.

(** A page with seven headings of level one. *)
Lemma sequence_caps_witness :
  let heading (s : str) := Tag (lit "h1") [] [text_node s] in
  let sp := map heading [lit "a"; lit "b"; lit "c"; lit "d"; lit "e"; lit "f"; lit "g"] in
  ∃ r, @smart_scrape (example_libs sp) [] page_url [] 0%float = Some r
       ∧ headlines r = [lit "a"; lit "b"; lit "c"; lit "d"; lit "e"]
       ∧ length (headlines r) ≤ 5.
Proof.
  intros heading sp. eexists. split; [vm_compute; reflexivity|].
  split; [vm_compute; reflexivity|].
  apply (proj1 (@sequence_caps (example_libs sp) [] page_url [] 0%float _
                  ltac:(vm_compute; reflexivity))).
Defined.

(** X5: [get_main_images] resolves the first five non-empty [src] values of
    the [img] tags, in document order, and no other: it raises exactly when
    [urljoin] raises on one of these five, and returns their resolutions,
    or the sentinel list when there is none. *)
Theorem get_main_images_first_five `{Libs} (sp : soup) (base_url : str) :
  get_main_images sp base_url
  = (λ images, or_list images [lit "Not found"])
    <$> mapM (urljoin base_url)
          (take 5 (attr_values (lit "src")
                     (find_all (lit "img") (has_attr (lit "src")) sp))).
Proof.
  unfold get_main_images. rewrite get_main_images_loop_mapM by (simpl; lia).
  simpl. by destruct (mapM _ _).
Qed.

(** X6: [find_favicons] resolves the non-empty [href] of every [link] tag
    whose [rel] matches, in document order and without a cap: it raises
    exactly when [urljoin] raises on one of them, and returns their
    resolutions, or the sentinel list when there is none. *)
Theorem find_favicons_all `{Libs} (sp : soup) (base_url : str) :
  find_favicons sp base_url
  = (λ icons, or_list icons [lit "Not found"])
    <$> mapM (urljoin base_url)
          (attr_values (lit "href")
             (find_all (lit "link") (multi_matches icon_rel (lit "rel")) sp)).
Proof.
  unfold find_favicons. rewrite find_favicons_loop_mapM.
  simpl. by destruct (mapM _ _).
Qed.

(** ** Open Graph and Twitter tags *)

Section SocialFacts.
Context `{Libs}.

Lemma assoc_dict_set (k v k' : str) (d : list (str * str)) :
  assoc k' (dict_set k v d) = if decide (k = k') then Some v else assoc k' d.
Proof.
  induction d as [|[k0 v0] d IH]; simpl.
  - destruct (decide (k = k')); done.
  - destruct (decide (k0 = k)) as [->|Hne]; simpl.
    + destruct (decide (k = k')); done.
    + rewrite IH. destruct (decide (k0 = k')) as [->|]; [|done].
      by rewrite decide_False.
Qed.

Lemma dict_set_keys (k v : str) (d : list (str * str)) :
  (dict_set k v d).*1 = d.*1 ∧ k ∈ d.*1
  ∨ (dict_set k v d).*1 = d.*1 ++ [k] ∧ k ∉ d.*1.
Proof.
  induction d as [|[k0 v0] d IH]; csimpl.
  - right. split; [done|]. apply not_elem_of_nil.
  - destruct (decide (k0 = k)) as [->|Hne]; csimpl.
    + left. split; [done | left].
    + destruct IH as [[Heq Hin]|[Heq Hin]].
      * left. split; [by rewrite Heq | by right].
      * right. split; [by rewrite Heq|].
        rewrite not_elem_of_cons. split; [congruence | done].
Qed.

Lemma dict_set_NoDup (k v : str) (d : list (str * str)) :
  NoDup d.*1 → NoDup (dict_set k v d).*1.
Proof.
  intros Hd. destruct (dict_set_keys k v d) as [[Heq _]|[Heq Hin]];
    rewrite Heq; [done|].
  apply NoDup_app. split; [done|]. split; [|apply NoDup_singleton].
  intros x Hx ->%list_elem_of_singleton. done.
Qed.

Lemma dict_set_key_elem (k v k' : str) (d : list (str * str)) :
  k' ∈ (dict_set k v d).*1 ↔ k' = k ∨ k' ∈ d.*1.
Proof.
  destruct (dict_set_keys k v d) as [[Heq Hin]|[Heq Hin]]; rewrite Heq.
  - split; [by right | by intros [->|?]].
  - rewrite elem_of_app, list_elem_of_singleton. tauto.
Qed.

Lemma extract_open_graph_loop_cons (tag : node) (tags : list node)
    (og : list (str * str)) :
  extract_open_graph_loop (tag :: tags) og
  = if is_social (og_prop tag)
    then extract_open_graph_loop tags (dict_set (og_prop tag) (og_content tag) og)
    else extract_open_graph_loop tags og.
Proof. done. Qed.

(** What the loop of [extract_open_graph] keeps: keys stay distinct, a new
    key is a social one, and a key's value is that of the last tag carrying
    it. *)
Lemma extract_open_graph_loop_spec (tags : list node) :
  ∀ og,
    (NoDup og.*1 → NoDup (extract_open_graph_loop tags og).*1)
    ∧ (∀ k, k ∈ (extract_open_graph_loop tags og).*1 →
            k ∈ og.*1 ∨ is_social k = true ∧ ∃ tag, tag ∈ tags ∧ og_prop tag = k)
    ∧ (∀ k, is_social k = true →
            assoc k (extract_open_graph_loop tags og)
            = default (assoc k og)
                (Some <$> (og_content <$> last (filter (λ tag, og_prop tag = k) tags)))).
Proof.
  induction tags as [|tag tags IH]; intros og.
  - simpl. split; [done|]. split; [by left|]. by intros k _.
  - rewrite extract_open_graph_loop_cons.
    assert (Hlast : ∀ k, last (filter (λ t, og_prop t = k) (tag :: tags))
                    = match last (filter (λ t, og_prop t = k) tags) with
                      | Some t => Some t
                      | None => if decide (og_prop tag = k) then Some tag else None
                      end).
    { intros k. rewrite filter_cons. destruct (decide (og_prop tag = k)); [|by destruct (last _)].
      destruct (filter _ tags) as [|t ts] eqn:Hf; [done|].
      rewrite last_cons. by destruct (last (t :: ts)). }
    destruct (is_social (og_prop tag)) eqn:Hsoc.
    + destruct (IH (dict_set (og_prop tag) (og_content tag) og)) as (Hnd & Hkeys & Hget).
      split; [|split].
      * intros Hog. by apply Hnd, dict_set_NoDup.
      * intros k Hk. destruct (Hkeys k Hk) as [Hin|(Hs & t & Ht & Hp)].
        -- apply dict_set_key_elem in Hin as [->|Hin]; [|by left].
           right. split; [done|]. exists tag. split; [left | done].
        -- right. split; [done|]. exists t. split; [by right | done].
      * intros k Hk. rewrite (Hget k Hk), Hlast, assoc_dict_set.
        destruct (last (filter _ tags)) as [t|]; simpl; [done|].
        by destruct (decide (og_prop tag = k)).
    + destruct (IH og) as (Hnd & Hkeys & Hget).
      split; [done|]. split.
      * intros k Hk. destruct (Hkeys k Hk) as [Hin|(Hs & t & Ht & Hp)]; [by left|].
        right. split; [done|]. exists t. split; [by right | done].
      * intros k Hk. rewrite (Hget k Hk), Hlast.
        destruct (last (filter _ tags)) as [t|]; simpl; [done|].
        destruct (decide (og_prop tag = k)) as [Heq|]; [|done].
        rewrite Heq in Hsoc. congruence.
Qed.

End SocialFacts.

(** X7: the dictionary [extract_open_graph] returns has no key twice; it is
    the sentinel [{"None": "Not found"}] or every key of it starts with
    [og:] or [twitter:] and is the [property] (or, failing that, the [name])
    of a [meta] tag; and the value under such a key is the [content] of the
    last [meta] tag that carries it (["Not found"] when that tag has none). *)
Theorem extract_open_graph_dict `{Libs} (sp : soup) :
  let metas := find_all (lit "meta") any_tag sp in
  NoDup (extract_open_graph sp).*1
  ∧ (extract_open_graph sp = [(lit "None", lit "Not found")]
     ∨ ∀ k, k ∈ (extract_open_graph sp).*1 →
            is_social k = true ∧ ∃ tag, tag ∈ metas ∧ og_prop tag = k)
  ∧ (∀ k, is_social k = true →
          assoc k (extract_open_graph sp)
          = og_content <$> last (filter (λ tag, og_prop tag = k) metas)).
Proof.
  intros metas. unfold extract_open_graph. fold metas.
  destruct (extract_open_graph_loop_spec metas []) as (Hnd & Hkeys & Hget).
  destruct (extract_open_graph_loop metas []) as [|kv og] eqn:Hloop;
    unfold or_list.
  - split; [apply NoDup_singleton|]. split; [by left|].
    intros k Hk. specialize (Hget k Hk). simpl in Hget.
    destruct (last (filter _ metas)) as [t|]; [done|].
    simpl. rewrite decide_False; [done|]. intros <-. by vm_compute in Hk.
  - split; [by apply Hnd, NoDup_nil|]. split.
    + right. intros k Hk. destruct (Hkeys k Hk) as [Hin|?]; [|done].
      by apply elem_of_nil in Hin.
    + intros k Hk. rewrite (Hget k Hk). by destruct (last (filter _ metas)).
Qed.

(** ** The formatter *)

(** X8: the preview [format_json_ld] returns is never longer than 701
    characters; it depends on the first two blocks only; and it is the
    placeholder ["Error formatting JSON-LD"] as soon as [json.dumps] raises
    on a dictionary among these two. *)
Theorem format_json_ld_preview `{Libs} (json_ld_data : list json) :
  length (format_json_ld json_ld_data) ≤ 701
  ∧ format_json_ld json_ld_data = format_json_ld (take 2 json_ld_data)
  ∧ (∀ d, JDict d ∈ take 2 json_ld_data → json_dumps (JDict d) = None →
          format_json_ld json_ld_data = lit "Error formatting JSON-LD").
Proof.
  unfold format_json_ld. split; [|split].
  - destruct (mapM _ _) as [parts|].
    + apply (safe_truncate_to_length _ 700).
    + vm_compute. lia.
  - by rewrite take_take.
  - intros d Hd Hdump.
    rewrite (proj2 (mapM_None _ _)); [done|].
    apply Exists_exists. exists (JDict d). by split.
Qed.

(** X9: for a fetch that succeeded with a non-empty body, the embed [main]
    sends is built from the record the extractor returned and the response's
    status code; it is green with the status line ["200 OK"] when that code
    is 200, and red with the status line ["Error: <code>"] for every other
    successful code. *)
Theorem successful_fetch_report `{Libs} (url domain : str) (r : response)
    (elapsed : float) (data : page_record) :
  ¬ (400 ≤ status_code r < 600)%Z →
  text r ≠ [] →
  smart_scrape (text r) url (resp_headers r) elapsed = Some data →
  urlparse_netloc url = Some domain →
  let sent := send_discord_embed domain data url (Code (status_code r)) in
  process_url url (Responds r) elapsed = Some sent
  ∧ (status_code r = 200%Z →
       color sent = green
       ∧ value <$> fields sent !! 0 = Some (lit "200 OK"))
  ∧ (status_code r ≠ 200%Z →
       color sent = red
       ∧ value <$> fields sent !! 0
         = Some (lit "Error: " ++ str_of_Z (status_code r))).
Proof.
  intros Hcode Htext Hdata Hdomain sent. split; [|split].
  - unfold process_url, fetch_website_content.
    apply raise_for_status_None in Hcode. rewrite Hcode.
    unfold scraped_data_for, no_content.
    destruct (text r) as [|c body] eqn:Hbody; [done|].
    simpl. rewrite Hdata. simpl. by rewrite Hdomain.
  - intros H200. unfold sent. rewrite H200. by vm_compute.
  - intros Hne. unfold sent, send_discord_embed, status_text. simpl.
    destruct (Z.eqb_spec (status_code r) 200); [done|]. done.
Qed.

(** A response with status 201 and a body. *)
Lemma successful_fetch_report_witness :
  ∃ data sent,
    @process_url (example_libs []) page_url (Responds (answer 201 (lit "<p>"))) 0%float
    = Some sent
    ∧ sent = @send_discord_embed (example_libs []) (lit "a.com") data page_url (Code 201)
    ∧ color sent = red.
Proof.
  eexists _, _.
  destruct (@successful_fetch_report (example_libs []) page_url (lit "a.com")
              (answer 201 (lit "<p>")) 0%float _
              ltac:(simpl; lia) ltac:(done)
              ltac:(vm_compute; reflexivity) ltac:(vm_compute; reflexivity))
    as (Hsent & _ & Hred).
  split; [exact Hsent|]. split; [reflexivity|].
  apply Hred. done.
Defined.

(** ** The loop of [main] *)

Section LoopFacts.
Context `{Libs}.

Lemma main_loop_app (net : str → get_result * float) (pre post : list str) :
  main_loop net (pre ++ post)
  = if (main_loop net pre).2
    then ((main_loop net pre).1 ++ (main_loop net post).1, (main_loop net post).2)
    else ((main_loop net pre).1, false).
Proof.
  induction pre as [|url pre IH]; simpl.
  - by destruct (main_loop net post).
  - destruct (is_valid_url url) as [[|]|]; [|done|done].
    destruct (process_url url (net url).1 (net url).2) as [e|]; [|done].
    rewrite IH. destruct (main_loop net pre) as [sent ok]. simpl.
    by destruct ok.
Qed.

Lemma main_loop_length (net : str → get_result * float) (urls : list str) :
  length (main_loop net urls).1 ≤ length urls.
Proof.
  induction urls as [|url urls IH]; simpl; [done|].
  destruct (is_valid_url url) as [[|]|]; simpl; [|lia|lia].
  destruct (process_url url (net url).1 (net url).2) as [e|]; simpl; [|lia].
  destruct (main_loop net urls) as [sent ok]. simpl in *. lia.
Qed.

End LoopFacts.

(** X10: [main] handles the URLs in order and sends at most one embed per
    URL.  An invalid URL is passed over and changes nothing.  An exception
    while one URL is handled ends the loop: the embeds of the URLs before it
    have been sent, and no URL after it is fetched or reported, whatever it
    is. *)
Theorem main_loop_stops_at_exception `{Libs} (net : str → get_result * float)
    (pre post : list str) (url : str) :
  length (main_loop net (pre ++ url :: post)).1 ≤ length (pre ++ url :: post)
  ∧ (is_valid_url url = Some false →
       main_loop net (pre ++ url :: post) = main_loop net (pre ++ post))
  ∧ (is_valid_url url = None
     ∨ is_valid_url url = Some true
       ∧ process_url url (net url).1 (net url).2 = None →
     main_loop net (pre ++ url :: post) = ((main_loop net pre).1, false)).
Proof.
  split; [apply main_loop_length|]. split.
  - intros Hinvalid. rewrite !main_loop_app. simpl. by rewrite Hinvalid.
  - intros Hraise. rewrite main_loop_app. simpl.
    destruct Hraise as [-> | [-> ->]]; simpl;
      destruct (main_loop net pre).2; by rewrite ?app_nil_r.
Qed.

(** Two pages, the first with a link on which [urljoin] raises: nothing is
    sent, and the second page is not reported. *)
Lemma main_loop_stops_at_exception_witness :
  let sp := [anchor (lit "http://[")] in
  let net (url : str) := (Responds (answer 200 (lit "<a>")), 0%float) in
  @main_loop (example_libs sp) net [page_url; lit "http://b.com/"] = ([], false).
Proof.
  intros sp net.
  apply (proj2 (proj2 (@main_loop_stops_at_exception (example_libs sp) net []
                         [lit "http://b.com/"] page_url))).
  right. split; vm_compute; reflexivity.
Defined.

(** ** Entries of the record *)

Lemma sample_NoDup (links : list str) :
  NoDup links → NoDup (or_list (take 5 links) [lit "None"]).
Proof.
  intros Hnd. destruct (take 5 links) as [|u us] eqn:Htake; simpl.
  - apply NoDup_singleton.
  - rewrite <- Htake. eapply sublist_NoDup; [done | apply sublist_take].
Qed.

Lemma sample_length (links : list str) :
  length (or_list (take 5 links) [lit "None"])
  = Nat.max 1 (Nat.min 5 (length links)).
Proof.
  destruct links as [|u links]; [done|].
  change (or_list (take 5 (u :: links)) [lit "None"]) with (take 5 (u :: links)).
  rewrite length_take. simpl length. lia.
Qed.

(** X11: in a record [smart_scrape] returns, neither link sample lists a
    URL twice, and each sample has as many entries as there are links of its
    kind, up to five; a sample of a kind without links is the one entry
    ["None"]. *)
Theorem link_samples `{Libs} (html base_url : str) (hs : headers) (t : float)
    (r : page_record) :
  smart_scrape html base_url hs t = Some r →
  NoDup (internal_links_sample r) ∧ NoDup (external_links_sample r)
  ∧ length (internal_links_sample r)
    = Nat.max 1 (Nat.min 5 (internal_links_count r))
  ∧ length (external_links_sample r)
    = Nat.max 1 (Nat.min 5 (external_links_count r))
  ∧ (internal_links_count r = 0 → internal_links_sample r = [lit "None"])
  ∧ (external_links_count r = 0 → external_links_sample r = [lit "None"]).
Proof.
  intros Hr.
  destruct (smart_scrape_Some _ _ _ _ _ Hr)
    as (cs & fav & imgs & canon & il & el & _ & _ & _ & _ & Hlinks & ->).
  apply count_links_NoDup in Hlinks as [Hil Hel]. simpl.
  split; [by apply sample_NoDup|]. split; [by apply sample_NoDup|].
  split; [apply sample_length|]. split; [apply sample_length|].
  split; intros Hzero; apply length_zero_iff_nil in Hzero; by rewrite Hzero.
Qed.

(** The page of three links and two passed over. *)
Lemma link_samples_witness :
  let sp := [anchor (lit "http://a.com/y"); anchor (lit "https://A.COM/z");
             anchor (lit "http://b.com/w"); anchor (lit "#frag");
             anchor (lit "javascript:void(0)")] in
  ∃ r, @smart_scrape (example_libs sp) [] page_url [] 0%float = Some r
       ∧ internal_links_count r = 2
       ∧ length (internal_links_sample r) = 2
       ∧ external_links_sample r = [lit "http://b.com/w"].
Proof.
  intros sp. eexists. split; [vm_compute; reflexivity|].
  split; [reflexivity|]. split; [|reflexivity].
  apply (proj1 (proj2 (proj2 (@link_samples (example_libs sp) [] page_url []
                                0%float _ ltac:(vm_compute; reflexivity))))).
Defined.

(** X12: in a record [smart_scrape] returns, no headline or subheadline is
    the empty string, and every summary is the sentinel entry or longer than
    50 characters. *)
Theorem entries_not_blank `{Libs} (html base_url : str) (hs : headers)
    (t : float) (r : page_record) :
  smart_scrape html base_url hs t = Some r →
  (∀ h, h ∈ headlines r → h ≠ [])
  ∧ (∀ h, h ∈ subheadlines r → h ≠ [])
  ∧ (∀ s, s ∈ summaries r →
          s = lit "No meaningful paragraphs found" ∨ 50 < length s).
Proof.
  intros Hr.
  destruct (smart_scrape_Some _ _ _ _ _ Hr)
    as (cs & fav & imgs & canon & il & el & _ & _ & _ & _ & _ & ->).
  simpl.
  assert (Hhead : ∀ nm d h, d ≠ [] →
            h ∈ or_list (take 5 (heading_texts (BeautifulSoup html) nm)) [d] → h ≠ []).
  { intros nm d h Hd Hh.
    destruct (take 5 (heading_texts (BeautifulSoup html) nm)) as [|x xs] eqn:Htake.
    - simpl in Hh. apply list_elem_of_singleton in Hh as ->. done.
    - change (h ∈ x :: xs) in Hh. rewrite <- Htake in Hh.
      apply elem_of_take in Hh as (i & Hi & _).
      apply list_elem_of_lookup_2 in Hi.
      unfold heading_texts in Hi. apply list_elem_of_filter in Hi as [Hi _].
      by apply truthy_true. }
  split; [intros h; by apply Hhead|]. split; [intros h; by apply Hhead|].
  intros s Hs.
  destruct (take 5 (paragraphs (BeautifulSoup html))) as [|x xs] eqn:Htake.
  - simpl in Hs. apply list_elem_of_singleton in Hs as ->. by left.
  - change (s ∈ x :: xs) in Hs. rewrite <- Htake in Hs.
    apply elem_of_take in Hs as (i & Hi & _).
    apply list_elem_of_lookup_2 in Hi.
    unfold paragraphs in Hi. apply list_elem_of_filter in Hi as [Hi _].
    apply andb_true_iff in Hi as [_ Hlen]. apply Nat.ltb_lt in Hlen. by right.
Qed.

(** A page with a blank heading and a real one. *)
Lemma entries_not_blank_witness :
  let sp := [Tag (lit "h1") [] [text_node (lit "  ")];
             Tag (lit "h1") [] [text_node (lit " News ")]] in
  ∃ r, @smart_scrape (example_libs sp) [] page_url [] 0%float = Some r
       ∧ headlines r = [lit "News"]
       ∧ ∀ h, h ∈ headlines r → h ≠ [].
Proof.
  intros sp. eexists. split; [vm_compute; reflexivity|].
  split; [reflexivity|].
  apply (proj1 (@entries_not_blank (example_libs sp) [] page_url [] 0%float _
                  ltac:(vm_compute; reflexivity))).
Defined.

(** ** Reading the URLs *)

Section StringFacts.

Lemma lstrip_spaces (s : str) :
  ∃ ws, s = ws ++ lstrip s ∧ Forall (λ c, isspace c = true) ws.
Proof.
  induction s as [|c s (ws & Hs & Hws)]; [by exists []|].
  simpl. destruct (isspace c) eqn:Hc.
  - exists (c :: ws). split; [simpl; by rewrite <- Hs | by constructor].
  - by exists [].
Qed.

Lemma lstrip_head (s r : str) (c : char) :
  lstrip s = c :: r → isspace c = false.
Proof.
  induction s as [|x s IH]; [done|]. simpl.
  destruct (isspace x) eqn:Hx; [done|]. by intros [= <- _].
Qed.

Lemma lstrip_fixed (s : str) :
  lstrip s = s ↔ ∀ c r, s = c :: r → isspace c = false.
Proof.
  split.
  - intros Hs c r Hcr. rewrite Hcr in Hs. by apply lstrip_head in Hs.
  - intros Hhead. destruct s as [|c r]; [done|].
    simpl. by rewrite (Hhead c r).
Qed.

Lemma lstrip_app_fixed (a b : str) :
  a ≠ [] → lstrip a = a → lstrip (a ++ b) = a ++ b.
Proof.
  intros Ha Hfix. destruct a as [|c a]; [done|].
  apply lstrip_fixed. intros c' r [= <- _].
  by apply (proj1 (lstrip_fixed (c :: a)) Hfix c a).
Qed.

Lemma lstrip_app_spaces (ws s : str) :
  Forall (λ c, isspace c = true) ws → lstrip (ws ++ s) = lstrip s.
Proof. induction 1 as [|c ws Hc _ IH]; [done|]. simpl. by rewrite Hc. Qed.

Lemma lstrip_idemp (s : str) : lstrip (lstrip s) = lstrip s.
Proof. apply lstrip_fixed. intros c r. apply lstrip_head. Qed.

Lemma lstrip_length (s : str) : length (lstrip s) ≤ length s.
Proof.
  destruct (lstrip_spaces s) as (ws & Hs & _).
  rewrite Hs at 2. rewrite length_app. lia.
Qed.

Lemma lstrip_same_length (s : str) : length (lstrip s) = length s → lstrip s = s.
Proof.
  intros Hlen. destruct (lstrip_spaces s) as (ws & Hs & _).
  assert (Hws : length ws = 0).
  { apply (f_equal length) in Hs. rewrite length_app in Hs. lia. }
  apply length_zero_iff_nil in Hws. by rewrite Hws in Hs.
Qed.

Lemma rstrip_length (s : str) : length (rstrip s) ≤ length s.
Proof.
  unfold rstrip. rewrite length_reverse.
  etransitivity; [apply lstrip_length|]. by rewrite length_reverse.
Qed.

Lemma rstrip_idemp (s : str) : rstrip (rstrip s) = rstrip s.
Proof. unfold rstrip. by rewrite reverse_involutive, lstrip_idemp. Qed.

Lemma rstrip_fixed_reverse (s : str) :
  rstrip s = s → lstrip (reverse s) = reverse s.
Proof.
  unfold rstrip. intros Hs. apply (f_equal reverse) in Hs.
  by rewrite reverse_involutive in Hs.
Qed.

Lemma rstrip_app_fixed (a b : str) :
  a ≠ [] → rstrip a = a → rstrip (b ++ a) = b ++ a.
Proof.
  intros Ha Hfix. unfold rstrip. rewrite reverse_app.
  rewrite lstrip_app_fixed.
  - by rewrite <- reverse_app, reverse_involutive.
  - intros Hnil. apply Ha. apply (f_equal reverse) in Hnil.
    by rewrite reverse_involutive in Hnil.
  - by apply rstrip_fixed_reverse.
Qed.

(** Stripping the right end leaves a left end without white space so. *)
Lemma rstrip_keeps_lstrip (s : str) :
  lstrip s = s → lstrip (rstrip s) = rstrip s.
Proof.
  intros Hfix. apply lstrip_fixed. intros c r Hcr.
  destruct (lstrip_spaces (reverse s)) as (ws & Hs & _).
  apply (f_equal reverse) in Hs.
  rewrite reverse_involutive, reverse_app in Hs.
  fold (rstrip s) in Hs. rewrite Hcr in Hs.
  apply (proj1 (lstrip_fixed s) Hfix c (r ++ reverse ws)). by rewrite Hs.
Qed.

Lemma strip_idemp (s : str) : strip (strip s) = strip s.
Proof.
  unfold strip.
  rewrite (rstrip_keeps_lstrip (lstrip s) (lstrip_idemp s)).
  apply rstrip_idemp.
Qed.

Lemma strip_fixed (s : str) : strip s = s → lstrip s = s ∧ rstrip s = s.
Proof.
  intros Hs. unfold strip in Hs.
  assert (Hl : lstrip s = s).
  { apply lstrip_same_length.
    pose proof (rstrip_length (lstrip s)). pose proof (lstrip_length s).
    rewrite Hs in *. lia. }
  split; [done|]. by rewrite Hl in Hs.
Qed.

Lemma strip_elem (s : str) (c : char) : c ∈ strip s → c ∈ s.
Proof.
  unfold strip, rstrip. rewrite elem_of_reverse. intros Hc.
  destruct (lstrip_spaces (reverse (lstrip s))) as (ws & Hs & _).
  assert (Hin : c ∈ reverse (lstrip s)) by (rewrite Hs, elem_of_app; by right).
  rewrite elem_of_reverse in Hin.
  destruct (lstrip_spaces s) as (ws' & Hs' & _).
  rewrite Hs', elem_of_app. by right.
Qed.

Lemma strip_padded (pad s : str) :
  Forall (λ c, isspace c = true) pad → strip (pad ++ s) = strip s.
Proof. intros Hpad. unfold strip. by rewrite lstrip_app_spaces. Qed.

Lemma join_last (sep : str) (l : list str) (x : str) :
  ∃ front, join sep (l ++ [x]) = front ++ x.
Proof.
  induction l as [|y l (front & IH)]; [by exists []|].
  destruct l as [|z l].
  - exists (y ++ sep). simpl. by rewrite <- app_assoc.
  - exists (y ++ sep ++ front).
    change (join sep ((y :: z :: l) ++ [x]))
      with (y ++ sep ++ join sep ((z :: l) ++ [x])).
    by rewrite IH, <- !app_assoc.
Qed.

Lemma join_first (sep : str) (l : list str) (x : str) :
  ∃ back, join sep (x :: l) = x ++ back.
Proof.
  destruct l as [|y l]; [exists []; simpl; by rewrite app_nil_r|].
  by exists (sep ++ join sep (y :: l)).
Qed.

(** A joined list of stripped, non-empty texts has no white space around
    it. *)
Lemma strip_join (sep : str) (l : list str) :
  Forall (λ u, u ≠ [] ∧ strip u = u) l → strip (join sep l) = join sep l.
Proof.
  intros Hl. destruct l as [|x l]; [done|].
  assert (Hx : x ≠ [] ∧ strip x = x) by by inversion Hl.
  destruct (join_first sep l x) as (back & Hfirst).
  destruct (exists_last (l:=x :: l) ltac:(done)) as (l' & z & Hsplit).
  assert (Hz : z ≠ [] ∧ strip z = z).
  { rewrite Forall_forall in Hl. apply Hl.
    rewrite Hsplit. apply elem_of_app. right. left. }
  destruct (join_last sep l' z) as (front & Hlast).
  unfold strip.
  rewrite Hfirst at 1.
  rewrite lstrip_app_fixed; [|apply Hx|apply strip_fixed, Hx].
  rewrite <- Hfirst, Hsplit, Hlast.
  apply rstrip_app_fixed; [apply Hz | apply strip_fixed, Hz].
Qed.

Lemma startswith_single (c x : char) (s : str) :
  startswith [c] (x :: s) = bool_decide (c = x).
Proof.
  simpl. case_bool_decide; [by rewrite decide_True | by rewrite decide_False].
Qed.

Lemma split_go_single_cons (c x : char) (s cur : str) :
  split_go [c] (x :: s) 0 cur
  = if bool_decide (c = x)
    then reverse cur :: split_go [c] s 0 []
    else split_go [c] s 0 (x :: cur).
Proof.
  change (split_go [c] (x :: s) 0 cur)
    with (if startswith [c] (x :: s)
          then reverse cur :: split_go [c] s 0 []
          else split_go [c] s 0 (x :: cur)).
  by rewrite startswith_single.
Qed.

(** The pieces of a split at one character do not hold it. *)
Lemma split_go_pieces (c : char) (s : str) :
  ∀ cur piece, c ∉ cur → piece ∈ split_go [c] s 0 cur → c ∉ piece.
Proof.
  induction s as [|x s IH]; intros cur piece Hcur.
  - simpl. intros ->%list_elem_of_singleton. by rewrite elem_of_reverse.
  - rewrite split_go_single_cons. case_bool_decide as Hx.
    + intros [->|Hin]%elem_of_cons.
      * by rewrite elem_of_reverse.
      * apply (IH [] piece); [apply not_elem_of_nil | done].
    + apply IH. rewrite not_elem_of_cons. by split.
Qed.

Lemma split_go_skip (c : char) (a s cur : str) :
  c ∉ a → split_go [c] (a ++ s) 0 cur = split_go [c] s 0 (reverse a ++ cur).
Proof.
  revert cur. induction a as [|x a IH]; intros cur Ha; [done|].
  apply not_elem_of_cons in Ha as [Hx Ha].
  rewrite <- app_comm_cons, split_go_single_cons.
  rewrite bool_decide_eq_false_2 by done.
  rewrite IH by done. by rewrite reverse_cons, <- app_assoc.
Qed.

(** Splitting a joined list at the separator's first character gives the
    entries back, each after the first behind the rest of the separator. *)
Lemma split_go_join (c : char) (pad : str) (us : list str) :
  ∀ (u cur : str),
    c ∉ pad → c ∉ u → Forall (λ v, c ∉ v) us →
    split_go [c] (join (c :: pad) (u :: us)) 0 cur
    = (reverse cur ++ u) :: map (pad ++.) us.
Proof.
  induction us as [|v us IH]; intros u cur Hpad Hu Hus.
  - simpl. rewrite <- (app_nil_r u) at 1. rewrite split_go_skip by done.
    simpl. by rewrite reverse_app, reverse_involutive.
  - change (join (c :: pad) (u :: v :: us))
      with (u ++ (c :: pad) ++ join (c :: pad) (v :: us)).
    rewrite split_go_skip by done.
    rewrite <- app_comm_cons, split_go_single_cons, bool_decide_eq_true_2 by done.
    rewrite reverse_app, reverse_involutive.
    apply Forall_cons in Hus as [Hv Hus].
    rewrite split_go_skip by done. rewrite app_nil_r.
    rewrite IH by done. by rewrite reverse_involutive.
Qed.

(** Stripping the pieces gives the entries back. *)
Lemma strip_padded_pieces (pad u0 : str) (us : list str) :
  Forall (λ c, isspace c = true) pad →
  strip u0 ≠ [] →
  Forall (λ v, v ≠ [] ∧ strip v = v) us →
  filter (λ url, truthy url = true) (map strip (u0 :: map (pad ++.) us))
  = strip u0 :: us.
Proof.
  intros Hpad Hu0 Hus. simpl.
  rewrite filter_cons, decide_True by by apply truthy_true.
  f_equal. induction Hus as [|v vs [Hv Hsv] _ IH]; [done|].
  simpl. rewrite filter_cons, strip_padded by done.
  rewrite Hsv, decide_True by by apply truthy_true.
  by f_equal.
Qed.

End StringFacts.

(** X13: every URL [get_urls_from_input] returns is non-empty, has no white
    space around it and holds no comma; and typing such URLs separated by a
    comma and a space gives exactly them back, in order. *)
Theorem get_urls_from_input_clean (line : str) :
  (∀ url, url ∈ get_urls_from_input line → clean_url url)
  ∧ (∀ urls, Forall clean_url urls →
             get_urls_from_input (join (lit ", ") urls) = urls).
Proof.
  split.
  - intros url [Hne Hin]%list_elem_of_filter.
    apply list_elem_of_fmap in Hin as (piece & -> & Hpiece).
    split; [by apply truthy_true|]. split; [apply strip_idemp|].
    intros Hcomma%strip_elem. revert Hcomma.
    apply (split_go_pieces comma (strip line) [] piece);
      [apply not_elem_of_nil | done].
  - intros urls Hclean. unfold get_urls_from_input.
    rewrite strip_join.
    2:{ eapply Forall_impl; [done|]. by intros u (? & ? & _). }
    destruct urls as [|u us]; [done|].
    apply Forall_cons in Hclean as [(Hu & Hsu & Hcu) Hus].
    unfold Py.split.
    change (lit ", ") with (comma :: [32%N]). change (lit ",") with [comma].
    rewrite (split_go_join comma [32%N] us u []); [..|done|].
    2:{ intros Hc%list_elem_of_singleton. discriminate Hc. }
    2:{ eapply Forall_impl; [done|]. by intros v (_ & _ & ?). }
    rewrite strip_padded_pieces.
    + simpl. by rewrite Hsu.
    + by repeat constructor.
    + simpl. by rewrite Hsu.
    + eapply Forall_impl; [done|]. by intros v (? & ? & _).
Qed.

(** Two URLs typed on one line. *)
Lemma get_urls_from_input_clean_witness :
  get_urls_from_input (lit "http://a.com/x, https://b.org")
  = [lit "http://a.com/x"; lit "https://b.org"].
Proof.
  apply (proj2 (get_urls_from_input_clean [])
           [lit "http://a.com/x"; lit "https://b.org"]).
  repeat constructor; try done;
    by (intros Hin; vm_compute in Hin; repeat (apply elem_of_cons in Hin as [Hin|Hin]; [discriminate Hin|]); by apply elem_of_nil in Hin).
Defined.

(** X14: the title, meta description, meta keywords and robots fields of a
    record [smart_scrape] returns carry no white space at either end:
    stripping them changes nothing. *)
Theorem text_fields_stripped `{Libs} (html base_url : str) (hs : headers)
    (t : float) (r : page_record) :
  smart_scrape html base_url hs t = Some r →
  strip (title r) = title r
  ∧ strip (meta_description r) = meta_description r
  ∧ strip (meta_keywords r) = meta_keywords r
  ∧ strip (robots_meta r) = robots_meta r.
Proof.
  intros Hr.
  destruct (smart_scrape_Some _ _ _ _ _ Hr)
    as (cs & fav & imgs & canon & il & el & _ & _ & _ & _ & _ & ->).
  simpl. unfold scrape_title, scrape_meta, get_robots_meta.
  repeat split.
  - destruct (find (lit "title") any_tag _) as [tag|]; [|done].
    destruct (string_of tag) as [s|]; [|done].
    destruct (truthy s); [apply strip_idemp | done].
  - destruct (find (lit "meta") _ _); [apply strip_idemp | done].
  - destruct (find (lit "meta") _ _); [apply strip_idemp | done].
  - destruct (find (lit "meta") _ _) as [tag|]; [|done].
    destruct (get tag (lit "content")) as [c|]; [|done].
    destruct (truthy c); [apply strip_idemp | done].
Qed.

(** A page whose title and description are padded with white space. *)
Lemma text_fields_stripped_witness :
  let sp := [Tag (lit "title") [] [text_node (lit "  Home  ")];
             Tag (lit "meta") [(lit "name", lit "description");
                               (lit "content", lit " A page. ")] []] in
  ∃ r, @smart_scrape (example_libs sp) [] page_url [] 0%float = Some r
       ∧ title r = lit "Home"
       ∧ meta_description r = lit "A page."
       ∧ strip (title r) = title r.
Proof.
  intros sp. eexists. split; [vm_compute; reflexivity|].
  split; [reflexivity|]. split; [reflexivity|].
  apply (proj1 (@text_fields_stripped (example_libs sp) [] page_url [] 0%float _
                  ltac:(vm_compute; reflexivity))).
Defined.



(** ** Which URLs [is_valid_url] accepts *)

Section UrlFacts.
Import Urllib.

Lemma break_at_spec (p : char → bool) (s a b : str) :
  break_at p s = (a, b) →
  s = a ++ b ∧ (∀ c, c ∈ a → p c = false)
  ∧ (b = [] ∨ ∃ c b', b = c :: b' ∧ p c = true).
Proof.
  revert a b. induction s as [|c s IH]; intros a b; simpl.
  - intros [= <- <-]. split; [done|]. split; [|by left].
    by intros c Hc%elem_of_nil.
  - destruct (p c) eqn:Hp.
    + intros [= <- <-]. split; [done|]. split; [|right; eauto].
      by intros d Hd%elem_of_nil.
    + destruct (break_at p s) as [a' b'] eqn:Hb. intros [= <- <-].
      destruct (IH a' b' eq_refl) as (-> & Ha & Hb').
      split; [done|]. split; [|done].
      intros d [->|Hd]%elem_of_cons; auto.
Qed.

Lemma urlsplit_shape (b n : str → bool) (url sch netloc path q f : str) :
  urlsplit b n url [] = Some (sch, netloc, path, q, f) →
  sch ≠ [] → netloc ≠ [] →
  ∃ pre rest,
    cleaned url = pre ++ [colon; slash; slash] ++ netloc ++ rest
    ∧ sch = ascii_lower pre
    ∧ (∀ c, c ∈ netloc → delimiter c = false)
    ∧ (rest = [] ∨ ∃ c rest', rest = c :: rest' ∧ delimiter c = true).
Proof.
  unfold urlsplit. fold (cleaned url).
  change (filter _ (strip_if c0_or_space [])) with (@nil char).
  destruct (break_at (is_char colon) (cleaned url)) as [pre post] eqn:Hb.
  apply break_at_spec in Hb as (Hu & _ & Hpost).
  match goal with
  | |- (let '(_, _) := ?m in _) = _ → _ => 
      assert (Hm : m = ([], cleaned url)
                   ∨ ∃ c rest, post = c :: rest ∧ m = (ascii_lower pre, rest));
      [|destruct m as [scheme url0]]
  end.
  { destruct pre as [|c pre']; [by left|].
    destruct post as [|d rest]; [by left|].
    destruct (_ && _); [right; eauto | by left]. }
  intros Hres Hsch Hnet.
  destruct (bool_decide (take 2 url0 = [slash; slash])) eqn:Hslashes; simpl in Hres.
  2:{ repeat case_match; simplify_eq. }
  destruct (break_at _ (drop 2 url0)) as [netloc0 rest] eqn:Hb2.
  assert (scheme = sch ∧ netloc0 = netloc) as [-> ->].
  { destruct (has_char lbracket netloc0 && negb _ || _); [done|].
    destruct (has_char lbracket netloc0 && _ && negb _); [done|].
    simpl in Hres.
    destruct (if has_char hash rest then _ else _) as [u1 fr].
    destruct (if has_char question u1 then _ else _) as [u2 qu].
    destruct (truthy netloc0 && _ && _); by simplify_eq. }
  destruct Hm as [[= -> _] | (c & rest0 & -> & [= -> ->])]; [done|].
  destruct Hpost as [|(c' & b' & [= <- <-] & Hc)]; [done|].
  apply bool_decide_eq_true in Hc as ->.
  apply bool_decide_eq_true in Hslashes.
  apply break_at_spec in Hb2 as (Hdrop & Hdelim & Hrest).
  exists pre, rest. split; [|done].
  rewrite Hu. f_equal. f_equal.
  rewrite <- (take_drop 2 rest0), Hslashes, Hdrop. done.
Qed.

Lemma break_at_app (p : char → bool) (a b : str) :
  (∀ c, c ∈ a → p c = false) →
  (b = [] ∨ ∃ c b', b = c :: b' ∧ p c = true) →
  break_at p (a ++ b) = (a, b).
Proof.
  intros Ha Hb. induction a as [|c a IH]; simpl.
  - destruct Hb as [-> | (c & b' & -> & Hc)]; [done|]. simpl. by rewrite Hc.
  - rewrite (Ha c) by left. rewrite IH; [done|].
    intros d Hd. apply Ha. by right.
Qed.

Lemma ascii_lower_letters (pre s : str) :
  ascii_lower pre = s → forallb is_lower s = true →
  Forall (λ c, is_lower c || is_upper c = true) pre.
Proof.
  revert s. induction pre as [|c pre IH]; intros s; [constructor|].
  simpl. intros <-. simpl. intros [Hc Hs]%andb_prop. constructor; [|by eapply IH].
  destruct (is_upper c); [by rewrite orb_true_r | by rewrite Hc].
Qed.

Lemma letter_scheme_char (c : char) :
  is_lower c || is_upper c = true →
  scheme_char c = true ∧ is_char colon c = false.
Proof.
  intros Hc. split.
  - unfold scheme_char. by rewrite Hc.
  - apply bool_decide_eq_false. intros ->. by vm_compute in Hc.
Qed.

Lemma web_scheme_letters (scheme : str) :
  web_scheme scheme →
  scheme ≠ [] ∧ Forall (λ c, is_lower c || is_upper c = true) scheme.
Proof.
  intros Hs. split.
  - intros ->. by destruct Hs as [Hs|Hs]; vm_compute in Hs.
  - destruct Hs as [Hs|Hs]; by eapply ascii_lower_letters.
Qed.

Lemma forallb_elem (p : char → bool) (s : str) :
  (∀ c, c ∈ s → p c = true) → forallb p s = true.
Proof.
  induction s as [|c s IH]; intros Hs; [done|]. simpl.
  rewrite (Hs c) by left. apply IH. intros d Hd. apply Hs. by right.
Qed.

Lemma urlsplit_web (b n : str → bool) (url scheme host rest : str) :
  cleaned url = scheme ++ [colon; slash; slash] ++ host ++ rest →
  web_scheme scheme → plain_host host → ends_host rest →
  ∃ path q f,
    urlsplit b n url [] = Some (ascii_lower scheme, host, path, q, f).
Proof.
  intros Hu Hs [Hne Hhost] Hrest.
  destruct (web_scheme_letters _ Hs) as [Hnil Hletters].
  unfold urlsplit. fold (cleaned url).
  change (filter _ (strip_if c0_or_space [])) with (@nil char).
  rewrite Hu.
  rewrite (break_at_app _ scheme); cycle 1.
  { intros c Hc. rewrite Forall_forall in Hletters.
    by apply letter_scheme_char, Hletters. }
  { right. eexists _, _. split; [done|]. by apply bool_decide_eq_true. }
  destruct scheme as [|c scheme']; [done|].
  change (colon :: [slash; slash] ++ host ++ rest)
    with (colon :: slash :: slash :: host ++ rest).
  cbv iota beta.
  assert (forallb scheme_char (c :: scheme') = true) as ->.
  { apply forallb_elem. rewrite Forall_forall in Hletters.
    intros d Hd. by apply letter_scheme_char, Hletters. }
  inversion Hletters as [|? ? Hc _]; subst. rewrite Hc.
  cbv iota beta. simpl andb. cbv iota.
  change ([colon; slash; slash] ++ host ++ rest)
    with (colon :: slash :: slash :: host ++ rest).
  cbv iota beta.
  rewrite bool_decide_eq_true_2 by done.
  change (drop 2 (slash :: slash :: host ++ rest)) with (host ++ rest).
  rewrite (break_at_app _ host rest); [|by intros d Hd; apply Hhost|done].
  assert (has_char lbracket host = false) as ->.
  { apply bool_decide_eq_false. intros Hin. by apply Hhost in Hin as (_ & ? & _). }
  assert (has_char rbracket host = false) as ->.
  { apply bool_decide_eq_false. intros Hin. by apply Hhost in Hin as (_ & _ & ? & _). }
  assert (isascii host = true) as Hascii.
  { apply forallb_elem. intros d Hd.
    apply N.ltb_lt. by apply Hhost in Hd as (_ & _ & _ & ?). }
  simpl. rewrite Hascii, andb_false_r. simpl.
  destruct (if has_char hash rest then _ else _) as [u1 fr].
  destruct (if has_char question u1 then _ else _) as [u2 qu].
  eauto.
Qed.

Lemma urlparse_urlsplit (b n : str → bool) (url : str) :
  scheme_of b n url = (λ p, p.1.1.1.1) <$> urlsplit b n url []
  ∧ netloc_of b n url = (λ p, p.1.1.1.2) <$> urlsplit b n url [].
Proof.
  unfold scheme_of, netloc_of, urlparse.
  destruct (urlsplit b n url []) as [[[[[sch netloc] path] q] f]|]; [|done].
  simpl. by destruct (if _ && _ then _ else _).
Qed.

End UrlFacts.

(** X16: with [urlparse] as in [urllib.parse], a URL [is_valid_url] accepts
    reads, once its leading control characters and spaces and its tabs and
    line breaks are removed, as [http] or [https] in any case, then [://],
    then a non-empty host that runs up to the first [/], [?] or [#] or to
    the end; and every URL of this shape whose host is made of ASCII
    characters other than the square brackets is accepted. *)
Theorem is_valid_url_shape `{Libs} (b n : str → bool) (url : str) :
  (∀ u, urlparse_scheme u = Urllib.scheme_of b n u) →
  (∀ u, urlparse_netloc u = Urllib.netloc_of b n u) →
  (is_valid_url url = Some true →
   ∃ scheme host rest,
     cleaned url = scheme ++ lit "://" ++ host ++ rest
     ∧ web_scheme scheme ∧ host ≠ []
     ∧ (∀ c, c ∈ host → delimiter c = false) ∧ ends_host rest)
  ∧ (∀ scheme host rest,
       cleaned url = scheme ++ lit "://" ++ host ++ rest →
       web_scheme scheme → plain_host host → ends_host rest →
       is_valid_url url = Some true).
Proof.
  intros Hscheme Hnetloc. unfold is_valid_url.
  rewrite Hscheme, Hnetloc.
  destruct (urlparse_urlsplit b n url) as [-> ->].
  split.
  - destruct (Urllib.urlsplit b n url []) as [[[[[sch netloc] path] q] f]|] eqn:Hsplit;
      [|done].
    simpl. intros [= Hok]. apply andb_prop in Hok as [Hsch Hnet].
    apply bool_decide_eq_true in Hsch.
    apply negb_true_iff, bool_decide_eq_false in Hnet.
    destruct (urlsplit_shape b n url sch netloc path q f Hsplit)
      as (pre & rest & Hu & -> & Hdelim & Hrest); [|done|].
    { intros ->. by destruct Hsch as [Hs|Hs]; vm_compute in Hs. }
    by exists pre, netloc, rest.
  - intros scheme host rest Hu Hs Hhost Hrest.
    destruct (urlsplit_web b n url scheme host rest Hu Hs Hhost Hrest)
      as (path & q & f & ->).
    simpl. f_equal. apply andb_true_intro. split.
    + by apply bool_decide_eq_true.
    + apply negb_true_iff, bool_decide_eq_false. apply Hhost.
Qed.

(** An upper-case scheme and a leading space. *)
Lemma is_valid_url_shape_witness :
  @is_valid_url (example_libs []) (lit " HTTPS://Example.com/a?b") = Some true.
Proof.
  apply (proj2 (@is_valid_url_shape (example_libs []) (λ _, true) (λ _, true)
                  (lit " HTTPS://Example.com/a?b")
                  (λ _, eq_refl) (λ _, eq_refl))
           (lit "HTTPS") (lit "Example.com") (lit "/a?b")).
  - reflexivity.
  - right. reflexivity.
  - split; [done|]. intros c Hc. vm_compute in Hc.
    repeat (apply elem_of_cons in Hc as [-> | Hc];
            [by repeat split; try (intros [=]); vm_compute|]).
    by apply elem_of_nil in Hc.
  - right. eexists _, _. split; [reflexivity|]. reflexivity.
Defined.

(** ** The size of the embed *)

Lemma format_json_ld_length `{Libs} (json_ld_data : list json) :
  length (format_json_ld json_ld_data) ≤ 701.
Proof.
  unfold format_json_ld. destruct (mapM _ _) as [parts|].
  - apply (safe_truncate_to_length _ 700).
  - vm_compute. lia.
Qed.

(** X17: the embed [send_discord_embed] builds has 23 fields, and the value
    of every field that is not inline is at most 701 characters long, but
    for the Last-Modified, Canonical URL and Robots Meta fields, which carry
    the record's text as it is, whatever its length. *)
Theorem embed_field_bounds `{Libs} (domain : str) (data : page_record)
    (url : str) (status_code : status) :
  let sent := send_discord_embed domain data url status_code in
  length (fields sent) = 23
  ∧ (∀ f, f ∈ fields sent → inline f = false →
          name f ∉ [lit "Last-Modified"; lit "Canonical URL"; lit "Robots Meta"] →
          length (value f) ≤ 701)
  ∧ value <$> fields sent !! 4 = Some (last_modified data)
  ∧ value <$> fields sent !! 10 = Some (canonical_url data)
  ∧ value <$> fields sent !! 11 = Some (robots_meta data).
Proof.
  intros sent. split; [done|]. split; [|done].
  intros f Hin Hinline Hname. unfold sent, send_discord_embed in Hin.
  cbn [fields] in Hin.
  repeat (apply elem_of_cons in Hin as [-> | Hin]);
    cbn [inline value name] in *;
    try discriminate Hinline;
    try apply (safe_truncate_to_length _ 700);
    try apply format_json_ld_length;
    try (exfalso; apply Hname; set_solver).
Qed.
